(** * cal-ai: nutrition text parsing, numeric extraction and daily totals

    A shallow embedding of the pure core of [src/app/page.tsx]:
    [parseNutritionResult], [extractNumericValue], the fallback test of
    [NutritionPieChart] and the four [reduce] calls that compute the daily
    totals, together with the JavaScript primitives they rely on (strings as
    sequences of UTF-16 code units, [split], [trim], anchored
    case-insensitive regular expressions, [parseFloat] and binary64
    addition). *)

From Stdlib Require Import String Ascii NArith ZArith Bool Lia List.
From Stdlib Require Import Permutation.
From Stdlib Require SpecFloat.
Import ListNotations.

Local Open Scope N_scope.

(* ================================================================== *)
(** ** JavaScript strings *)
(* ================================================================== *)

(** A JavaScript string is a finite sequence of 16-bit code units. *)
Definition codeunit := N.
Definition jsstring := list codeunit.

(** ASCII literals, to write inputs the way the source writes them. *)
Definition js (s : string) : jsstring :=
  map N_of_ascii (list_ascii_of_string s).

Definition LF : codeunit := 10.
Definition SP : codeunit := 32.

(** [WhiteSpace] and [LineTerminator] of ECMA-262: the code units removed by
    [String.prototype.trim] and matched by the class escape [\s]. *)
Definition isWhiteSpace (c : codeunit) : bool :=
  (c =? 9) || (c =? 11) || (c =? 12) || (c =? 32) || (c =? 160)
  || (c =? 5760) || ((8192 <=? c) && (c <=? 8202))
  || (c =? 8239) || (c =? 8287) || (c =? 12288) || (c =? 65279).

Definition isLineTerminator (c : codeunit) : bool :=
  (c =? 10) || (c =? 13) || (c =? 8232) || (c =? 8233).

Definition isSpace (c : codeunit) : bool :=
  isWhiteSpace c || isLineTerminator c.

Fixpoint dropWhile {A} (p : A -> bool) (l : list A) : list A :=
  match l with
  | [] => []
  | x :: l' => if p x then dropWhile p l' else l
  end.

Fixpoint takeWhile {A} (p : A -> bool) (l : list A) : list A :=
  match l with
  | [] => []
  | x :: l' => if p x then x :: takeWhile p l' else []
  end.

Definition trimStart (s : jsstring) : jsstring := dropWhile isSpace s.
Definition trimEnd (s : jsstring) : jsstring := rev (dropWhile isSpace (rev s)).

(** [String.prototype.trim]. *)
Definition trim (s : jsstring) : jsstring := trimEnd (trimStart s).

(** [s.split(sep)] for a one-code-unit separator: always at least one piece,
    the empty string splits into one empty piece. *)
Fixpoint split (sep : codeunit) (s : jsstring) : list jsstring :=
  match s with
  | [] => [[]]
  | c :: s' =>
      if c =? sep then [] :: split sep s'
      else match split sep s' with
           | piece :: pieces => (c :: piece) :: pieces
           | [] => [[c]]
           end
  end.

(** [xs.join(sep)]. *)
Fixpoint join (sep : jsstring) (xs : list jsstring) : jsstring :=
  match xs with
  | [] => []
  | [x] => x
  | x :: rest => x ++ sep ++ join sep rest
  end.

(* ------------------------------------------------------------------ *)
(** *** The label patterns [/^label:\s*/i] *)
(* ------------------------------------------------------------------ *)

(** [Canonicalize] of a code unit under the [i] flag (no [u] flag), as far
    as a comparison with an ASCII pattern character can observe it: the
    letters a-z go to A-Z.  A code unit of 128 or more never canonicalizes
    to an ASCII one (ECMA-262 keeps it unchanged in that case), so leaving
    it alone here does not change which inputs match an ASCII pattern. *)
Definition canonicalize (c : codeunit) : codeunit :=
  if (97 <=? c) && (c <=? 122) then c - 32 else c.

(** The literal part of the pattern, anchored at index 0: on a match, the
    text that follows it. *)
Fixpoint matchLiteral (pat s : jsstring) : option jsstring :=
  match pat with
  | [] => Some s
  | p :: pat' =>
      match s with
      | [] => None
      | c :: s' =>
          if canonicalize c =? canonicalize p then matchLiteral pat' s'
          else None
      end
  end.

(** A match of [/^label\s*/i] against [s]: the text after the match.  The
    greedy [\s*] always succeeds and takes the longest run of white space. *)
Definition regexMatch (label s : jsstring) : option jsstring :=
  match matchLiteral label s with
  | Some rest => Some (dropWhile isSpace rest)
  | None => None
  end.

(** [/^label\s*/i.test(s)]. *)
Definition test (label s : jsstring) : bool :=
  match regexMatch label s with Some _ => true | None => false end.

(** [s.replace(/^label\s*/i, '')]. *)
Definition replace (label s : jsstring) : jsstring :=
  match regexMatch label s with Some rest => rest | None => s end.

Definition caloriesLabel : jsstring := js "calories:".
Definition proteinLabel : jsstring := js "protein:".
Definition carbsLabel : jsstring := js "carbs:".
Definition fatLabel : jsstring := js "fat:".
Definition tipLabel : jsstring := js "tip:".

(* ================================================================== *)
(** ** parseNutritionResult *)
(* ================================================================== *)

Module NutritionData.
Record t : Type := mk {
  calories : jsstring;
  protein : jsstring;
  carbs : jsstring;
  fat : jsstring;
  tip : jsstring
}.

Definition set_calories (v : jsstring) (d : t) : t :=
  mk v (protein d) (carbs d) (fat d) (tip d).
Definition set_protein (v : jsstring) (d : t) : t :=
  mk (calories d) v (carbs d) (fat d) (tip d).
Definition set_carbs (v : jsstring) (d : t) : t :=
  mk (calories d) (protein d) v (fat d) (tip d).
Definition set_fat (v : jsstring) (d : t) : t :=
  mk (calories d) (protein d) (carbs d) v (tip d).
Definition set_tip (v : jsstring) (d : t) : t :=
  mk (calories d) (protein d) (carbs d) (fat d) v.
End NutritionData.

(** The variables the [for] loop of [parseNutritionResult] updates. *)
Record ParseState : Type := mkParseState {
  nutritionData : NutritionData.t;
  tipFound : bool;
  tipLines : list jsstring
}.

Definition initialState : ParseState :=
  mkParseState (NutritionData.mk [] [] [] [] []) false [].

(** One iteration of the loop body. *)
Definition parseLine (st : ParseState) (line : jsstring) : ParseState :=
  let trimmedLine := trim line in
  let nd := nutritionData st in
  if test caloriesLabel trimmedLine then
    mkParseState
      (NutritionData.set_calories (trim (replace caloriesLabel trimmedLine)) nd)
      (tipFound st) (tipLines st)
  else if test proteinLabel trimmedLine then
    mkParseState
      (NutritionData.set_protein (trim (replace proteinLabel trimmedLine)) nd)
      (tipFound st) (tipLines st)
  else if test carbsLabel trimmedLine then
    mkParseState
      (NutritionData.set_carbs (trim (replace carbsLabel trimmedLine)) nd)
      (tipFound st) (tipLines st)
  else if test fatLabel trimmedLine then
    mkParseState
      (NutritionData.set_fat (trim (replace fatLabel trimmedLine)) nd)
      (tipFound st) (tipLines st)
  else if test tipLabel trimmedLine then
    mkParseState
      (NutritionData.set_tip (trim (replace tipLabel trimmedLine)) nd)
      true (tipLines st)
  else if tipFound st && (0 <? N.of_nat (List.length trimmedLine)) then
    mkParseState nd (tipFound st) (tipLines st ++ [trimmedLine])
  else st.

(** The state when the loop over the lines ends. *)
Definition parseLines (lines : list jsstring) : ParseState :=
  fold_left parseLine lines initialState.

(** The statement after the loop: the collected lines go behind the tip. *)
Definition combineTip (st : ParseState) : NutritionData.t :=
  let nd := nutritionData st in
  if 0 <? N.of_nat (List.length (tipLines st)) then
    NutritionData.set_tip
      (NutritionData.tip nd ++ [SP] ++ join [SP] (tipLines st)) nd
  else nd.

Definition parseNutritionResult (result : jsstring) : NutritionData.t :=
  combineTip (parseLines (split LF result)).

(** Lines of an input, written one per list element. *)
Definition unlines (ls : list string) : jsstring := join [LF] (map js ls).

(* ================================================================== *)
(** ** JavaScript numbers *)
(* ================================================================== *)

(** A Number is an IEEE 754 binary64 value.  Every finite binary64 value is
    an integral multiple of 2^-1074, the least positive one, so a finite
    value is kept as its sign and its magnitude [k] counted in that unit:
    [Finite s k] stands for (-1)^s * k * 2^-1074.  The magnitudes that occur
    have at most 53 significant bits and are below 2^2098 (that is, the
    value is below 2^1024). *)
Inductive number : Type :=
| NaN : number
| Infinity (negative : bool) : number
| Finite (negative : bool) (k : N) : number.

Definition precision : N := 53.
Definition unitExponent : N := 1074.
Definition overflowExponent : N := 2098.

(** Round the non-negative rational [num / den], counted in units of
    2^-1074, to the nearest binary64 magnitude, ties to even: keep the
    leading 53 bits of the quotient and round on the remainder. *)
Definition roundTiesToEven (negative : bool) (num den : N) : number :=
  let shift := N.size (num / den) - precision in
  let den' := den * 2 ^ shift in
  let q := num / den' in
  let r := num mod den' in
  let m := match 2 * r ?= den' with
           | Lt => q
           | Eq => if N.odd q then q + 1 else q
           | Gt => q + 1
           end in
  let k := m * 2 ^ shift in
  if k <? 2 ^ overflowExponent then Finite negative k else Infinity negative.

(** The Number m * 2^e, for m below 2^53 and e from -1074 on. *)
Definition dyadic (m : N) (e : Z) : number :=
  Finite false (m * 2 ^ Z.to_N (Z.of_N unitExponent + e)).

(** The Number of a natural number below 2^53. *)
Definition integer (n : N) : number := dyadic n 0.

Definition zero : number := Finite false 0.

Definition signed (negative : bool) (k : N) : Z :=
  if negative then (- Z.of_N k)%Z else Z.of_N k.

(** The [+] of two Numbers. *)
Definition add (x y : number) : number :=
  match x, y with
  | NaN, _ => NaN
  | _, NaN => NaN
  | Infinity s1, Infinity s2 => if Bool.eqb s1 s2 then Infinity s1 else NaN
  | Infinity s, Finite _ _ => Infinity s
  | Finite _ _, Infinity s => Infinity s
  | Finite s1 k1, Finite s2 k2 =>
      let z := (signed s1 k1 + signed s2 k2)%Z in
      if (z =? 0)%Z then Finite (s1 && s2) 0
      else roundTiesToEven (z <? 0)%Z (Z.abs_N z) 1
  end.

(** The [===] of two Numbers. *)
Definition strictEquals (x y : number) : bool :=
  match x, y with
  | Infinity s1, Infinity s2 => Bool.eqb s1 s2
  | Finite s1 k1, Finite s2 k2 => (k1 =? k2) && ((k1 =? 0) || Bool.eqb s1 s2)
  | _, _ => false
  end.

(* ------------------------------------------------------------------ *)
(** *** parseFloat *)
(* ------------------------------------------------------------------ *)

Definition isDigit (c : codeunit) : bool := (48 <=? c) && (c <=? 57).

Definition DOT : codeunit := 46.

(** The mathematical value of a run of decimal digits. *)
Definition decimalValue (ds : jsstring) : N :=
  fold_left (fun acc c => 10 * acc + (c - 48)) ds 0.

Fixpoint startsWith (p s : jsstring) : bool :=
  match p, s with
  | [], _ => true
  | _ :: _, [] => false
  | a :: p', c :: s' => (a =? c) && startsWith p' s'
  end.

(** The [ExponentPart] at the head of [s], if there is one: an [e] or [E],
    an optional sign and at least one digit. *)
Definition exponentPart (s : jsstring) : Z :=
  match s with
  | c :: s1 =>
      if (c =? 101) || (c =? 69) then
        let '(neg, s2) :=
          match s1 with
          | d :: s2 => if d =? 43 then (false, s2)
                       else if d =? 45 then (true, s2) else (false, s1)
          | [] => (false, s1)
          end in
        let ds := takeWhile isDigit s2 in
        match ds with
        | [] => 0%Z
        | _ => signed neg (decimalValue ds)
        end
      else 0%Z
  | [] => 0%Z
  end.

(** [parseFloat(s)]: the Number of the longest prefix of the trimmed string
    that is a [StrDecimalLiteral], and [NaN] when no prefix is one. *)
Definition parseFloat (s : jsstring) : number :=
  let s1 := trimStart s in
  let '(neg, s2) :=
    match s1 with
    | c :: r => if c =? 43 then (false, r)
                else if c =? 45 then (true, r) else (false, s1)
    | [] => (false, s1)
    end in
  if startsWith (js "Infinity") s2 then Infinity neg
  else
    let ip := takeWhile isDigit s2 in
    let r1 := dropWhile isDigit s2 in
    let '(fp, r2) :=
      match r1 with
      | c :: r => if c =? DOT then (takeWhile isDigit r, dropWhile isDigit r)
                  else ([], r1)
      | [] => ([], r1)
      end in
    match ip ++ fp with
    | [] => NaN
    | digits =>
        let e := exponentPart r2 in
        roundTiesToEven neg
          (decimalValue digits * 2 ^ unitExponent * 10 ^ Z.to_N e)
          (10 ^ N.of_nat (List.length fp) * 10 ^ Z.to_N (- e))
    end.

(* ------------------------------------------------------------------ *)
(** *** The Standard Library's IEEE 754 model *)
(* ------------------------------------------------------------------ *)

(** A Number as a [spec_float] in binary64 normal form: a mantissa of 53
    bits, or of fewer bits at the least exponent -1074. *)
Definition toSpecFloat (x : number) : SpecFloat.spec_float :=
  match x with
  | NaN => SpecFloat.S754_nan
  | Infinity s => SpecFloat.S754_infinity s
  | Finite s 0 => SpecFloat.S754_zero s
  | Finite s (Npos k) =>
      let t := N.log2 (Npos k) - 52 in
      match N.shiftr (Npos k) t with
      | Npos m => SpecFloat.S754_finite s m (Z.of_N t - 1074)
      | 0 => SpecFloat.S754_nan
      end
  end.

(** Numbers of several kinds: fractions that need rounding, integers, both
    zeros, a subnormal, the infinities and [NaN]. *)
Definition sampleNumbers : list number :=
  map (fun s => parseFloat (js s))
    ["0.1"; "0.2"; "0.3"; "0.5"; "-0.3"; "3.5"; "500"; "300";
     "9007199254740993"; "0"; "-0"; "1e-320"; "Infinity"; "-Infinity";
     "none"]%string.

(* ================================================================== *)
(** ** extractNumericValue *)
(* ================================================================== *)

(** The longest match of [\d+(?:\.\d+)?] that starts at the head of [s],
    which is a digit: the digits, then a dot and digits when both follow. *)
Definition numberAt (s : jsstring) : jsstring :=
  let ds := takeWhile isDigit s in
  match dropWhile isDigit s with
  | c :: r =>
      if c =? DOT then
        match takeWhile isDigit r with
        | [] => ds
        | fs => ds ++ [DOT] ++ fs
        end
      else ds
  | [] => ds
  end.

(** [str.match(/(\d+(?:\.\d+)?)/)]: group 1 of the leftmost match, [None]
    for [null]. *)
Fixpoint matchNumber (str : jsstring) : option jsstring :=
  match str with
  | [] => None
  | c :: str' => if isDigit c then Some (numberAt str) else matchNumber str'
  end.

Definition extractNumericValue (str : jsstring) : number :=
  match matchNumber str with
  | Some m => parseFloat m
  | None => zero
  end.

(* ================================================================== *)
(** ** The chart fallback of NutritionPieChart *)
(* ================================================================== *)

(** What [NutritionPieChart] returns: the fallback paragraph
    "No macro data available for chart", or a pie over the three values of
    the data set, in the order Protein, Carbs, Fat. *)
Inductive ChartView : Type :=
| NoMacroData : ChartView
| Pie (data : list number) : ChartView.

Definition NutritionPieChart (nutritionData : NutritionData.t) : ChartView :=
  let proteinValue := extractNumericValue (NutritionData.protein nutritionData) in
  let carbsValue := extractNumericValue (NutritionData.carbs nutritionData) in
  let fatValue := extractNumericValue (NutritionData.fat nutritionData) in
  if strictEquals proteinValue zero && strictEquals carbsValue zero
     && strictEquals fatValue zero
  then NoMacroData
  else Pie [proteinValue; carbsValue; fatValue].

(* ================================================================== *)
(** ** Meal entries and the daily totals *)
(* ================================================================== *)

Module MealEntry.
Record t : Type := mk {
  id : number;
  name : jsstring;
  calories : number;
  protein : number;
  carbs : number;
  fat : number;
  timestamp : N   (* the time value of the Date, in milliseconds *)
}.
End MealEntry.

(** [saveMealFromAnalysis], on the state it reads and writes: the analysis
    text [result] ([None] for [null]) and the list [todaysMeals]; [now] is
    the clock reading of [Date.now()] and [new Date()]. *)
Definition saveMealFromAnalysis (now : N) (result : option jsstring)
    (todaysMeals : list MealEntry.t) : list MealEntry.t :=
  match result with
  | None | Some [] => todaysMeals
  | Some text =>
      let nutritionData := parseNutritionResult text in
      let meal :=
        MealEntry.mk (integer now) (js "AI Analyzed Meal")
          (extractNumericValue (NutritionData.calories nutritionData))
          (extractNumericValue (NutritionData.protein nutritionData))
          (extractNumericValue (NutritionData.carbs nutritionData))
          (extractNumericValue (NutritionData.fat nutritionData))
          now in
      todaysMeals ++ [meal]
  end.

(** [xs.reduce(f, init)]. *)
Definition reduce {A B : Type} (f : B -> A -> B) (xs : list A) (init : B) : B :=
  fold_left f xs init.

Record DailyTotals : Type := mkDailyTotals {
  totalCalories : number;
  totalProtein : number;
  totalCarbs : number;
  totalFat : number
}.

(** The four sums the "Daily Totals" grid of [Home] displays. *)
Definition dailyTotals (todaysMeals : list MealEntry.t) : DailyTotals :=
  mkDailyTotals
    (reduce (fun sum meal => add sum (MealEntry.calories meal)) todaysMeals zero)
    (reduce (fun sum meal => add sum (MealEntry.protein meal)) todaysMeals zero)
    (reduce (fun sum meal => add sum (MealEntry.carbs meal)) todaysMeals zero)
    (reduce (fun sum meal => add sum (MealEntry.fat meal)) todaysMeals zero).

(* ================================================================== *)
(** ** What the specification says, in its own words *)
(* ================================================================== *)

(** The five fields and their label prefixes. *)
Inductive Field : Type := Calories | Protein | Carbs | Fat | Tip.

Definition labelOf (f : Field) : jsstring :=
  match f with
  | Calories => caloriesLabel
  | Protein => proteinLabel
  | Carbs => carbsLabel
  | Fat => fatLabel
  | Tip => tipLabel
  end.

Definition field (f : Field) (d : NutritionData.t) : jsstring :=
  match f with
  | Calories => NutritionData.calories d
  | Protein => NutritionData.protein d
  | Carbs => NutritionData.carbs d
  | Fat => NutritionData.fat d
  | Tip => NutritionData.tip d
  end.

(** A trimmed line begins with a label when its first code units are the
    label's, letter case aside. *)
Definition beginsWith (label s : jsstring) : Prop :=
  exists head rest,
    s = head ++ rest /\ map canonicalize head = map canonicalize label.

(** A line matches a label when its trimmed text does. *)
Definition matchesLabel (label line : jsstring) : bool :=
  test label (trim line).

(** The value a matching line gives its field: the remainder, trimmed. *)
Definition labelValue (label line : jsstring) : jsstring :=
  trim (replace label (trim line)).

(** Last write wins: the value of the last line that matches the label,
    the empty string when none does. *)
Definition lastValue (label : jsstring) (lines : list jsstring) : jsstring :=
  last (map (labelValue label) (filter (matchesLabel label) lines)) [].

Definition isLabelLine (line : jsstring) : bool :=
  matchesLabel caloriesLabel line || matchesLabel proteinLabel line
  || matchesLabel carbsLabel line || matchesLabel fatLabel line
  || matchesLabel tipLabel line.

(** A tip continuation line: non-empty once trimmed, and no label line. *)
Definition isContinuation (line : jsstring) : bool :=
  negb (isLabelLine line) && negb (N.of_nat (List.length (trim line)) =? 0).

(** Whether some line matches [tip:]. *)
Definition hasTip (lines : list jsstring) : bool :=
  existsb (matchesLabel tipLabel) lines.

(** The lines that follow the first line matching [tip:]. *)
Fixpoint afterFirstTip (lines : list jsstring) : list jsstring :=
  match lines with
  | [] => []
  | l :: rest => if matchesLabel tipLabel l then rest else afterFirstTip rest
  end.

(** The continuation lines of an input, trimmed, in encounter order. *)
Definition continuations (lines : list jsstring) : list jsstring :=
  map trim (filter isContinuation (afterFirstTip lines)).

(** Each continuation line goes behind the tip after a single space. *)
Definition appendAll (tip : jsstring) (conts : list jsstring) : jsstring :=
  tip ++ concat (map (fun c => SP :: c) conts).

(** The decimal token [ip] or [ip.fp] as a Number: its mathematical value
    [ip.fp], rounded to the nearest binary64 value. *)
Definition numberOfToken (ip fp : jsstring) : number :=
  roundTiesToEven false
    (decimalValue (ip ++ fp) * 2 ^ unitExponent)
    (10 ^ N.of_nat (List.length fp)).

Definition allDigits (s : jsstring) : Prop := forall c, In c s -> isDigit c = true.
Definition noDigit (s : jsstring) : Prop := forall c, In c s -> isDigit c = false.

Definition headIsDigit (s : jsstring) : bool :=
  match s with c :: _ => isDigit c | [] => false end.

(** [str] is [pre ++ token ++ post] where the token, [ip] or [ip.fp], is the
    first contiguous numeric token of [str]: no digit comes before it, its
    digit runs are not empty, and it cannot be extended to the right. *)
Definition FirstToken (str pre ip fp post : jsstring) : Prop :=
  noDigit pre /\ allDigits ip /\ ip <> [] /\ allDigits fp /\
  headIsDigit post = false /\
  match fp with
  | [] => str = pre ++ ip ++ post /\
          (forall r, post = DOT :: r -> headIsDigit r = false)
  | _ => str = pre ++ ip ++ [DOT] ++ fp ++ post
  end.

(** The sum of a list of naturals. *)
Definition sumN (ns : list N) : N := fold_right N.add 0 ns.

(** The bound below which every natural number is a Number. *)
Definition safeBound : N := 2 ^ precision.

(** The sum of a sequence of Numbers, taken in order from 0. *)
Definition sumOf (xs : list number) : number := fold_left add xs zero.

(** A field of the meals holds natural numbers whose sum is below 2^53. *)
Definition naturalValued (f : MealEntry.t -> number) (ms : list MealEntry.t)
    (ns : list N) : Prop :=
  map f ms = map integer ns /\ sumN ns < safeBound.

(** Three analyses saved one after the other. *)
Definition threeSnacks : list MealEntry.t :=
  saveMealFromAnalysis 3 (Some (js "Calories: 0.3 kcal"))
    (saveMealFromAnalysis 2 (Some (js "Calories: 0.2 kcal"))
       (saveMealFromAnalysis 1 (Some (js "Calories: 0.1 kcal")) [])).

(* ================================================================== *)
(** ** The rest of the page: upload outcome, analysis panel, meal log *)
(* ================================================================== *)

Definition CR : codeunit := 13.

(** The template literal of the [catch] blocks of [handleUpload] and
    [capturePhoto]: a warning sign (U+26A0 U+FE0F), " Error: " and the
    message. *)
Definition errorResult (message : jsstring) : jsstring :=
  [9888; 65039] ++ js " Error: " ++ message.

(** What [fetch('/api/analyse')] and [res.json()] gave the handler: an
    exception with its message, or the flag [res.ok] with the fields
    [result] and [error] of the body ([None] for an absent field). *)
Inductive FetchOutcome : Type :=
| Thrown (message : jsstring) : FetchOutcome
| Answered (ok : bool) (result error : option jsstring) : FetchOutcome.

(** The message the [catch] block receives, if the [try] block throws:
    [data.error || 'Unknown error'] when the answer is not [ok]. *)
Definition failureMessage (o : FetchOutcome) : option jsstring :=
  match o with
  | Thrown message => Some message
  | Answered true _ _ => None
  | Answered false _ (Some (c :: e)) => Some (c :: e)
  | Answered false _ _ => Some (js "Unknown error")
  end.

(** The [result] state that [handleUpload] and the callback of
    [capturePhoto] set. *)
Definition uploadResult (o : FetchOutcome) : option jsstring :=
  match failureMessage o with
  | Some message => Some (errorResult message)
  | None => match o with Answered _ result _ => result | Thrown _ => None end
  end.

(** [result ? parseNutritionResult(result) : null], the value that decides
    whether [Home] shows the analysis panel. *)
Definition nutritionDataOf (result : option jsstring) : option NutritionData.t :=
  match result with
  | Some (c :: r) => Some (parseNutritionResult (c :: r))
  | _ => None
  end.

(** The meal log after a sequence of clicks on "Save to Today", each with
    the clock reading and the [result] state of its moment. *)
Definition savedLog (saves : list (N * option jsstring)) : list MealEntry.t :=
  fold_left (fun meals save => saveMealFromAnalysis (fst save) (snd save) meals)
    saves [].

(** The layout that the prompt of [analyzeImageWithAI] asks the model for:
    "Calories: [value] kcal", "Protein: [value]g", "Carbs: [value]g",
    "Fat: [value]g", an empty line and "Tip: [nutrition tip]". *)
Definition formattedResponse (c p b f t : jsstring) : jsstring :=
  js "Calories: " ++ c ++ js " kcal" ++ [LF] ++
  js "Protein: " ++ p ++ js "g" ++ [LF] ++
  js "Carbs: " ++ b ++ js "g" ++ [LF] ++
  js "Fat: " ++ f ++ js "g" ++ [LF] ++ [LF] ++
  js "Tip: " ++ t.

(** The text with every line feed turned into carriage return, line feed. *)
Definition toCRLF (s : jsstring) : jsstring :=
  flat_map (fun c => if c =? LF then [CR; LF] else [c]) s.

(** A run of digits that spells a natural number below 2^53. *)
Definition wholeNumber (ds : jsstring) : Prop :=
  allDigits ds /\ ds <> [] /\ decimalValue ds < safeBound.

(** A spelling of a label in any letter case. *)
Definition caseVariant (label head : jsstring) : Prop :=
  map canonicalize head = map canonicalize label.

Definition singleLine (s : jsstring) : Prop := forall c, In c s -> c <> LF.

Definition isBlank (s : jsstring) : bool := forallb isSpace s.

Definition noSpace (s : jsstring) : Prop := forall c, In c s -> isSpace c = false.

(** A Number that is neither [NaN] nor negative nor the negative zero. *)
Definition nonNegative (x : number) : Prop :=
  (exists k, x = Finite false k) \/ x = Infinity false.

(** A magnitude of at most 53 significant bits. *)
Definition representable (k : N) : Prop :=
  exists c t, k = c * 2 ^ t /\ c < 2 ^ precision.

(** A non-negative Number whose magnitude is a binary64 magnitude. *)
Definition wellFormed (x : number) : Prop :=
  (exists k, x = Finite false k /\ representable k) \/ x = Infinity false.

(** A meal whose four numeric fields are non-negative binary64 values. *)
Definition wellFormedMeal (m : MealEntry.t) : Prop :=
  wellFormed (MealEntry.calories m) /\ wellFormed (MealEntry.protein m) /\
  wellFormed (MealEntry.carbs m) /\ wellFormed (MealEntry.fat m).

(** The [<=] of two Numbers. *)
Definition lessEq (x y : number) : bool :=
  match x, y with
  | NaN, _ => false
  | _, NaN => false
  | Infinity true, _ => true
  | _, Infinity false => true
  | Infinity false, _ => false
  | _, Infinity true => false
  | Finite s1 k1, Finite s2 k2 => (signed s1 k1 <=? signed s2 k2)%Z
  end.

(* ================================================================== *)
(** ** Lemmas on strings and label patterns *)
(* ================================================================== *)

Section DropWhile.
Context {A : Type} (p : A -> bool).

Lemma takeWhile_dropWhile (l : list A) : takeWhile p l ++ dropWhile p l = l.
Proof.
  induction l as [|x l IH]; simpl; [reflexivity|].
  destruct (p x); simpl; [now rewrite IH | reflexivity].
Qed.

Lemma dropWhile_head (l : list A) x r : dropWhile p l = x :: r -> p x = false.
Proof.
  induction l as [|y l IH]; simpl; [discriminate|].
  destruct (p y) eqn:E; [exact IH|].
  intros H; injection H as <- _; exact E.
Qed.

Lemma dropWhile_stop x (l : list A) : p x = false -> dropWhile p (x :: l) = x :: l.
Proof. intros H; simpl; now rewrite H. Qed.

Lemma dropWhile_keeps_last (l : list A) x :
  p x = false -> exists l', dropWhile p (l ++ [x]) = l' ++ [x].
Proof.
  intros Hx; induction l as [|y l IH]; simpl.
  - rewrite Hx; now exists [].
  - destruct (p y); [exact IH | now exists (y :: l)].
Qed.

Lemma takeWhile_all (l : list A) : (forall x, In x l -> p x = true) ->
  forall r, (match r with y :: _ => p y | [] => false end) = false ->
  takeWhile p (l ++ r) = l /\ dropWhile p (l ++ r) = r.
Proof.
  intros Hl r Hr; induction l as [|x l IH]; simpl.
  - destruct r as [|y r]; simpl; [easy | now rewrite Hr].
  - rewrite (Hl x (or_introl eq_refl)).
    destruct IH as [-> ->]; [|easy].
    intros y Hy; apply Hl; now right.
Qed.
End DropWhile.

(** The first code unit of a non-empty trimmed string is no white space. *)
Lemma trim_head (s : jsstring) c r : trim s = c :: r -> isSpace c = false.
Proof.
  unfold trim, trimEnd, trimStart.
  destruct (dropWhile isSpace s) as [|x l] eqn:E; [discriminate|].
  pose proof (dropWhile_head _ _ _ _ E) as Hx.
  assert (exists l', dropWhile isSpace (rev (x :: l)) = l' ++ [x]) as [l' ->].
  { simpl rev. now apply dropWhile_keeps_last. }
  rewrite rev_app_distr; simpl. intros H; injection H as <- _; exact Hx.
Qed.

Lemma regexMatch_cons p pat c s :
  regexMatch (p :: pat) (c :: s) =
  if canonicalize c =? canonicalize p then regexMatch pat s else None.
Proof.
  unfold regexMatch; simpl. now destruct (canonicalize c =? canonicalize p).
Qed.

Lemma test_cons p pat c s :
  test (p :: pat) (c :: s) = (canonicalize c =? canonicalize p) && test pat s.
Proof.
  unfold test; rewrite regexMatch_cons.
  now destruct (canonicalize c =? canonicalize p).
Qed.

Lemma test_cons_inv p pat s : test (p :: pat) s = true ->
  exists c s', s = c :: s' /\ canonicalize c = canonicalize p /\ test pat s' = true.
Proof.
  destruct s as [|c s]; [discriminate|].
  rewrite test_cons; intros [H1 H2]%andb_prop.
  exists c, s; repeat split; [now apply N.eqb_eq | exact H2].
Qed.

(** The regular expression test is the prefix test of the specification. *)
Lemma test_beginsWith label s : test label s = true <-> beginsWith label s.
Proof.
  revert s; induction label as [|p pat IH]; intros s.
  - split; [|reflexivity]. intros _; now exists [], s.
  - split.
    + intros (c & s' & -> & Hc & Hs)%test_cons_inv.
      apply IH in Hs as (head & rest & -> & Hh).
      exists (c :: head), rest; split; [reflexivity|]. simpl; now rewrite Hc, Hh.
    + intros (head & rest & -> & Hh).
      destruct head as [|c head]; [discriminate|]. simpl in Hh.
      injection Hh as Hc Hh. simpl app. rewrite test_cons, Hc, N.eqb_refl.
      apply IH; now exists head, rest.
Qed.

Ltac label_head H :=
  let c := fresh "c" in let s := fresh "s" in let E := fresh "E" in
  apply test_cons_inv in H; destruct H as (c & s & -> & E & H).

(** A line matches at most one of the five labels. *)
Lemma label_exclusive (f g : Field) (s : jsstring) :
  f <> g -> test (labelOf f) s = true -> test (labelOf g) s = false.
Proof.
  intros Hfg H.
  destruct f, g; try congruence; clear Hfg;
    cbv [labelOf caloriesLabel proteinLabel carbsLabel fatLabel tipLabel] in *;
    match type of H with test ?l _ = _ =>
      let v := eval vm_compute in l in change l with v in H end;
    match goal with |- test ?l _ = _ =>
      let v := eval vm_compute in l in change l with v end;
    label_head H; label_head H; label_head H;
    rewrite !test_cons;
    repeat match goal with E : canonicalize _ = _ |- _ => rewrite E; clear E end;
    reflexivity.
Qed.

(* ================================================================== *)
(** ** The parser loop, line by line *)
(* ================================================================== *)

Lemma lastValue_snoc label ls l :
  lastValue label (ls ++ [l]) =
  if matchesLabel label l then labelValue label l else lastValue label ls.
Proof.
  unfold lastValue. rewrite filter_app; simpl.
  destruct (matchesLabel label l); simpl.
  - rewrite map_app; simpl. apply last_last.
  - now rewrite app_nil_r.
Qed.

Lemma lastValue_unmatched label ls :
  (forall l, In l ls -> matchesLabel label l = false) -> lastValue label ls = [].
Proof.
  intros H. unfold lastValue.
  replace (filter (matchesLabel label) ls) with (@nil jsstring); [reflexivity|].
  symmetry. induction ls as [|l ls IH]; simpl; [reflexivity|].
  rewrite (H l (or_introl eq_refl)). apply IH. intros x Hx; apply H; now right.
Qed.

Lemma afterFirstTip_none ls : hasTip ls = false -> afterFirstTip ls = [].
Proof.
  unfold hasTip. induction ls as [|x ls IH]; simpl; [reflexivity|].
  destruct (matchesLabel tipLabel x); simpl; [discriminate | exact IH].
Qed.

Lemma afterFirstTip_snoc ls l :
  afterFirstTip (ls ++ [l]) = if hasTip ls then afterFirstTip ls ++ [l] else [].
Proof.
  unfold hasTip. induction ls as [|x ls IH]; simpl.
  - now destruct (matchesLabel tipLabel l).
  - destruct (matchesLabel tipLabel x); simpl; [reflexivity | exact IH].
Qed.

Lemma afterFirstTip_split pre tipLine post :
  hasTip pre = false -> matchesLabel tipLabel tipLine = true ->
  afterFirstTip (pre ++ tipLine :: post) = post.
Proof.
  unfold hasTip. intros Hpre Htip. induction pre as [|x pre IH]; simpl.
  - now rewrite Htip.
  - simpl in Hpre. apply orb_false_elim in Hpre as [-> Hpre]. now apply IH.
Qed.

Lemma continuations_snoc ls l :
  continuations (ls ++ [l]) =
  if hasTip ls && isContinuation l then continuations ls ++ [trim l]
  else continuations ls.
Proof.
  unfold continuations. rewrite afterFirstTip_snoc.
  destruct (hasTip ls) eqn:E; simpl.
  - rewrite filter_app; simpl. destruct (isContinuation l); simpl.
    + now rewrite map_app.
    + now rewrite app_nil_r.
  - now rewrite (afterFirstTip_none _ E).
Qed.

Lemma hasTip_snoc ls l : hasTip (ls ++ [l]) = hasTip ls || matchesLabel tipLabel l.
Proof. unfold hasTip. rewrite existsb_app; simpl. now rewrite orb_false_r. Qed.

Lemma matchesLabel_exclusive f g l : f <> g ->
  matchesLabel (labelOf f) l = true -> matchesLabel (labelOf g) l = false.
Proof. unfold matchesLabel. apply label_exclusive. Qed.

Ltac exclude f g l E :=
  let H := fresh in
  assert (H := matchesLabel_exclusive f g l ltac:(discriminate) E);
  cbn [labelOf] in H; rewrite H; clear H.

(** The state of the loop after any number of lines, in closed form: every
    field holds the value of its last matching line, the flag tells whether
    a [tip:] line was met, and the collected lines are the continuation
    lines met after the first [tip:] line. *)
Lemma parseLines_closed_form (lines : list jsstring) :
  parseLines lines =
  mkParseState
    (NutritionData.mk
       (lastValue caloriesLabel lines) (lastValue proteinLabel lines)
       (lastValue carbsLabel lines) (lastValue fatLabel lines)
       (lastValue tipLabel lines))
    (hasTip lines) (continuations lines).
Proof.
  unfold parseLines.
  induction lines as [|l ls IH] using rev_ind; [reflexivity|].
  rewrite fold_left_app, IH; simpl fold_left.
  rewrite !lastValue_snoc, hasTip_snoc, continuations_snoc.
  unfold parseLine, isContinuation, isLabelLine; cbn [nutritionData tipFound tipLines].
  fold (matchesLabel caloriesLabel l) (matchesLabel proteinLabel l)
       (matchesLabel carbsLabel l) (matchesLabel fatLabel l)
       (matchesLabel tipLabel l) (labelValue caloriesLabel l)
       (labelValue proteinLabel l) (labelValue carbsLabel l)
       (labelValue fatLabel l) (labelValue tipLabel l).
  destruct (matchesLabel caloriesLabel l) eqn:E1.
  { exclude Calories Protein l E1. exclude Calories Carbs l E1.
    exclude Calories Fat l E1. exclude Calories Tip l E1.
    simpl. now rewrite orb_false_r, andb_false_r. }
  destruct (matchesLabel proteinLabel l) eqn:E2.
  { exclude Protein Carbs l E2. exclude Protein Fat l E2.
    exclude Protein Tip l E2.
    simpl. now rewrite orb_false_r, andb_false_r. }
  destruct (matchesLabel carbsLabel l) eqn:E3.
  { exclude Carbs Fat l E3. exclude Carbs Tip l E3.
    simpl. now rewrite orb_false_r, andb_false_r. }
  destruct (matchesLabel fatLabel l) eqn:E4.
  { exclude Fat Tip l E4.
    simpl. now rewrite orb_false_r, andb_false_r. }
  destruct (matchesLabel tipLabel l) eqn:E5.
  { simpl. now rewrite orb_true_r, andb_false_r. }
  simpl. rewrite orb_false_r.
  destruct (hasTip ls); simpl; [|reflexivity].
  destruct (trim l); reflexivity.
Qed.

Lemma join_space (xs : list jsstring) : xs <> [] ->
  [SP] ++ join [SP] xs = concat (map (fun c => SP :: c) xs).
Proof.
  intros H. induction xs as [|x xs IH]; [easy|].
  destruct xs as [|y xs].
  - simpl. now rewrite app_nil_r.
  - change (join [SP] (x :: y :: xs)) with (x ++ [SP] ++ join [SP] (y :: xs)).
    rewrite IH by easy. reflexivity.
Qed.

(** The parser in closed form: four fields hold the value of their last
    matching line, and the tip holds the value of the last [tip:] line
    followed by every continuation line, each behind one space. *)
Lemma parseNutritionResult_closed_form (result : jsstring) :
  let lines := split LF result in
  parseNutritionResult result =
  NutritionData.mk
    (lastValue caloriesLabel lines) (lastValue proteinLabel lines)
    (lastValue carbsLabel lines) (lastValue fatLabel lines)
    (appendAll (lastValue tipLabel lines) (continuations lines)).
Proof.
  intros lines. unfold parseNutritionResult, combineTip. fold lines.
  rewrite parseLines_closed_form; cbn [nutritionData tipLines].
  unfold appendAll.
  destruct (continuations lines) as [|c cs] eqn:E.
  - simpl. now rewrite app_nil_r.
  - cbn [List.length N.of_nat N.ltb N.compare]. unfold NutritionData.set_tip; simpl NutritionData.tip.
    rewrite <- join_space by easy. reflexivity.
Qed.

Lemma lastValue_skip label pre ls :
  (forall l, In l pre -> matchesLabel label l = false) ->
  lastValue label (pre ++ ls) = lastValue label ls.
Proof.
  intros H. unfold lastValue. rewrite filter_app.
  replace (filter (matchesLabel label) pre) with (@nil jsstring); [reflexivity|].
  symmetry. induction pre as [|l pre IH]; simpl; [reflexivity|].
  rewrite (H l (or_introl eq_refl)). apply IH. intros x Hx; apply H; now right.
Qed.

Lemma hasTip_false pre :
  (forall l, In l pre -> matchesLabel tipLabel l = false) -> hasTip pre = false.
Proof.
  unfold hasTip. induction pre as [|l pre IH]; simpl; intros H; [reflexivity|].
  rewrite (H l (or_introl eq_refl)). apply IH. intros x Hx; apply H; now right.
Qed.

Lemma continuations_unmatched ls :
  (forall l, In l ls -> matchesLabel tipLabel l = false) -> continuations ls = [].
Proof.
  intros H. unfold continuations. now rewrite afterFirstTip_none by now apply hasTip_false.
Qed.

Lemma continuations_split pre tipLine post :
  (forall l, In l pre -> matchesLabel tipLabel l = false) ->
  matchesLabel tipLabel tipLine = true ->
  continuations (pre ++ tipLine :: post) = map trim (filter isContinuation post).
Proof.
  intros Hpre Htip. unfold continuations.
  now rewrite afterFirstTip_split by (try apply hasTip_false; assumption).
Qed.

(** A field whose label no line matches is the empty string. *)
Lemma field_unmatched (f : Field) (result : jsstring) :
  (forall line, In line (split LF result) -> matchesLabel (labelOf f) line = false) ->
  field f (parseNutritionResult result) = [].
Proof.
  intros H. rewrite parseNutritionResult_closed_form.
  destruct f; cbn [field NutritionData.calories NutritionData.protein
                   NutritionData.carbs NutritionData.fat NutritionData.tip];
    try (now apply lastValue_unmatched).
  cbn [labelOf] in H. unfold appendAll.
  rewrite continuations_unmatched by exact H.
  now rewrite (lastValue_unmatched _ _ H).
Qed.

Lemma split_line (a rest : jsstring) :
  (forall c, In c a -> c <> LF) -> split LF (a ++ LF :: rest) = a :: split LF rest.
Proof.
  intros H. induction a as [|c a IH]; simpl.
  - reflexivity.
  - destruct (N.eqb_spec c LF) as [E|_].
    + now destruct (H c (or_introl eq_refl)).
    + rewrite IH; [reflexivity|]. intros x Hx; apply H; now right.
Qed.


(* ================================================================== *)
(** ** Lemmas on numbers *)
(* ================================================================== *)

#[local] Arguments N.pow : simpl never.

Lemma size_le_pow2 (k b : N) : k < 2 ^ b -> N.size k <= b.
Proof.
  intros H. destruct (N.eq_dec k 0) as [->|Hk]; [simpl; lia|].
  rewrite N.size_log2 by exact Hk.
  assert (N.log2 k < b); [|lia].
  apply N.log2_lt_pow2; [lia | exact H].
Qed.

(** Rounding leaves a magnitude of at most 53 significant bits unchanged. *)
Lemma roundTiesToEven_exact (s : bool) (c t : N) :
  c < 2 ^ precision -> c * 2 ^ t < 2 ^ overflowExponent ->
  roundTiesToEven s (c * 2 ^ t) 1 = Finite s (c * 2 ^ t).
Proof.
  intros Hc Hk. unfold roundTiesToEven.
  rewrite N.div_1_r, N.mul_1_l.
  set (k := c * 2 ^ t) in *.
  set (shift := N.size k - precision).
  assert (Hshift : shift <= t).
  { assert (N.size k <= precision + t); [|subst shift; lia].
    apply size_le_pow2. rewrite N.pow_add_r. subst k.
    apply N.mul_lt_mono_pos_r; [|exact Hc].
    apply N.neq_0_lt_0, N.pow_nonzero; discriminate. }
  assert (Hpos : 0 < 2 ^ shift) by (apply N.neq_0_lt_0, N.pow_nonzero; discriminate).
  assert (Ek : k = c * 2 ^ (t - shift) * 2 ^ shift).
  { subst k. rewrite <- N.mul_assoc, <- N.pow_add_r. do 2 f_equal. lia. }
  assert (Eq : k / 2 ^ shift = c * 2 ^ (t - shift)).
  { rewrite Ek at 1. apply N.div_mul. lia. }
  assert (Er : k mod 2 ^ shift = 0).
  { rewrite Ek. apply N.Div0.mod_mul. }
  rewrite Eq, Er, N.mul_0_r.
  destruct (N.compare_spec 0 (2 ^ shift)) as [E|_|E]; try lia.
  rewrite <- Ek.
  destruct (N.ltb_spec k (2 ^ overflowExponent)); [reflexivity | lia].
Qed.

(** Rounding a non-negative magnitude never yields [NaN] or a negative. *)
Lemma roundTiesToEven_shape (num den : N) :
  (exists k, roundTiesToEven false num den = Finite false k) \/
  roundTiesToEven false num den = Infinity false.
Proof.
  unfold roundTiesToEven.
  match goal with |- context [if ?b then _ else _] => destruct b end;
    [left; eexists; reflexivity | now right].
Qed.

Lemma integer_unfold (n : N) : integer n = Finite false (n * 2 ^ unitExponent).
Proof. reflexivity. Qed.

Lemma pow2_le_mono (a b : N) : a <= b -> 2 ^ a <= 2 ^ b.
Proof. intros H. apply N.pow_le_mono_r; [discriminate | exact H]. Qed.

Lemma integer_magnitude_bound (n : N) :
  n < safeBound -> n * 2 ^ unitExponent < 2 ^ overflowExponent.
Proof.
  unfold safeBound. intros H.
  apply N.lt_le_trans with (2 ^ precision * 2 ^ unitExponent).
  - apply N.mul_lt_mono_pos_r; [|exact H].
    apply N.neq_0_lt_0, N.pow_nonzero; discriminate.
  - rewrite <- N.pow_add_r. apply pow2_le_mono. vm_compute; discriminate.
Qed.

(** The sum of two non-negative Numbers is exact when the exact sum has at
    most 53 significant bits. *)
Lemma add_exact (ka kb c t : N) :
  ka + kb = c * 2 ^ t -> c < 2 ^ precision -> c * 2 ^ t < 2 ^ overflowExponent ->
  add (Finite false ka) (Finite false kb) = Finite false (ka + kb).
Proof.
  intros E Hc Hk. unfold add, signed.
  destruct (Z.eqb_spec (Z.of_N ka + Z.of_N kb) 0) as [Hz|Hz].
  - assert (ka + kb = 0) as -> by lia. reflexivity.
  - replace (Z.of_N ka + Z.of_N kb <? 0)%Z with false
      by (symmetry; apply Z.ltb_ge; lia).
    replace (Z.abs_N (Z.of_N ka + Z.of_N kb)) with (ka + kb) by lia.
    rewrite E. now apply roundTiesToEven_exact.
Qed.

(** Addition of Numbers is commutative (it is not associative). *)
Lemma add_comm (x y : number) : add x y = add y x.
Proof.
  destruct x as [|s1|s1 k1], y as [|s2|s2 k2]; try reflexivity.
  - now destruct s1, s2.
  - unfold add. now rewrite Z.add_comm, andb_comm.
Qed.

(** Adding natural numbers as Numbers is exact below 2^53. *)
Lemma add_integer (a b : N) :
  a + b < safeBound -> add (integer a) (integer b) = integer (a + b).
Proof.
  intros H. rewrite !integer_unfold, N.mul_add_distr_r.
  apply add_exact with (c := a + b) (t := unitExponent).
  - now rewrite N.mul_add_distr_r.
  - exact H.
  - now apply integer_magnitude_bound.
Qed.

Lemma zero_integer : zero = integer 0.
Proof. reflexivity. Qed.

(** A left-to-right sum of natural numbers is exact below 2^53. *)
Lemma reduce_add_integer {A : Type} (f : A -> number) (ms : list A) (ns : list N) :
  map f ms = map integer ns -> sumN ns < safeBound ->
  reduce (fun sum meal => add sum (f meal)) ms zero = integer (sumN ns).
Proof.
  unfold reduce. rewrite zero_integer.
  change (sumN ns) with (0 + sumN ns) at 1 2.
  generalize 0 as acc. revert ns.
  induction ms as [|m ms IH]; intros [|n ns] acc Hmap Hsum; try discriminate.
  - simpl. now rewrite N.add_0_r.
  - simpl in Hmap. injection Hmap as Hm Hmap.
    cbn [fold_left]. rewrite Hm. simpl sumN in *.
    rewrite add_integer by lia.
    rewrite IH with (ns := ns) by (assumption || lia).
    f_equal. lia.
Qed.

Lemma sumN_permutation (ns ns' : list N) : Permutation ns ns' -> sumN ns = sumN ns'.
Proof. induction 1; simpl in *; lia. Qed.

(** On the sample Numbers, [add] is the binary64 addition [SFadd 53 1024]
    of the Standard Library. *)
Lemma add_agrees_with_SpecFloat :
  forall x y, In x sampleNumbers -> In y sampleNumbers ->
    toSpecFloat (add x y)
    = SpecFloat.SFadd 53 1024 (toSpecFloat x) (toSpecFloat y).
Proof.
  assert (H : forallb (fun x => forallb (fun y =>
              match toSpecFloat (add x y),
                    SpecFloat.SFadd 53 1024 (toSpecFloat x) (toSpecFloat y) with
              | SpecFloat.S754_nan, SpecFloat.S754_nan => true
              | SpecFloat.S754_zero a, SpecFloat.S754_zero b => Bool.eqb a b
              | SpecFloat.S754_infinity a, SpecFloat.S754_infinity b => Bool.eqb a b
              | SpecFloat.S754_finite a m e, SpecFloat.S754_finite b m' e' =>
                  Bool.eqb a b && Pos.eqb m m' && Z.eqb e e'
              | _, _ => false
              end) sampleNumbers) sampleNumbers = true)
    by (vm_compute; reflexivity).
  intros x y Hx Hy.
  rewrite forallb_forall in H. specialize (H x Hx).
  rewrite forallb_forall in H. specialize (H y Hy).
  destruct (toSpecFloat (add x y)) as [a|a| |a m e],
           (SpecFloat.SFadd 53 1024 (toSpecFloat x) (toSpecFloat y)) as [b|b| |b m' e'];
    try discriminate; try reflexivity.
  - now apply Bool.eqb_prop in H as ->.
  - now apply Bool.eqb_prop in H as ->.
  - apply andb_prop in H as [[H1 H2]%andb_prop H3].
    apply Bool.eqb_prop in H1 as ->. apply Pos.eqb_eq in H2 as ->.
    now apply Z.eqb_eq in H3 as ->.
Qed.

(* ------------------------------------------------------------------ *)
(** *** Numeric tokens *)
(* ------------------------------------------------------------------ *)

Ltac decide_codeunit :=
  repeat match goal with
  | |- context [N.eqb ?a ?b] => destruct (N.eqb_spec a b); [lia|]
  | |- context [N.leb ?a ?b] => destruct (N.leb_spec a b); try lia
  end; simpl; try reflexivity.

Lemma isDigit_range (c : codeunit) : isDigit c = true -> 48 <= c <= 57.
Proof.
  unfold isDigit. intros [H1 H2]%andb_prop.
  apply N.leb_le in H1, H2. lia.
Qed.

Lemma digit_not_space (c : codeunit) : isDigit c = true -> isSpace c = false.
Proof.
  intros H%isDigit_range.
  unfold isSpace, isWhiteSpace, isLineTerminator. decide_codeunit.
Qed.

Lemma digit_not_special (c : codeunit) : isDigit c = true ->
  (c =? 43) = false /\ (c =? 45) = false /\ (73 =? c) = false /\ (c =? DOT) = false.
Proof.
  intros H%isDigit_range. unfold DOT. repeat split; decide_codeunit.
Qed.

(** [parseFloat] of a token [ip] or [ip.fp] is the Number of its value. *)
Lemma parseFloat_token (ip fp : jsstring) :
  allDigits ip -> ip <> [] -> allDigits fp ->
  parseFloat (ip ++ match fp with [] => [] | _ => DOT :: fp end)
  = numberOfToken ip fp.
Proof.
  intros Hip Hne Hfp.
  destruct ip as [|c ip]; [easy|].
  pose proof (Hip c (or_introl eq_refl)) as Hc.
  destruct (digit_not_special c Hc) as (E1 & E2 & E3 & _).
  unfold parseFloat, trimStart.
  cbn [app]. rewrite dropWhile_stop by now apply digit_not_space.
  rewrite E1, E2.
  change (startsWith (js "Infinity") (c :: ?s)) with ((73 =? c) && startsWith (js "nfinity") s).
  rewrite E3; cbn [andb].
  change (c :: ip ++ ?r) with ((c :: ip) ++ r).
  set (digits := c :: ip) in *.
  assert (Hfp0 : takeWhile isDigit fp = fp /\ dropWhile isDigit fp = []).
  { rewrite <- (app_nil_r fp) at 1 3. now apply takeWhile_all. }
  destruct fp as [|d fp'].
  - destruct (takeWhile_all isDigit digits Hip []) as [-> ->]; [reflexivity|].
    cbn [exponentPart]. rewrite app_nil_r.
    unfold numberOfToken. rewrite app_nil_r. subst digits.
    cbn [List.length Z.to_N Z.opp]. now rewrite !N.mul_1_r.
  - destruct (takeWhile_all isDigit digits Hip (DOT :: d :: fp')) as [-> ->];
      [reflexivity|].
    rewrite N.eqb_refl. destruct Hfp0 as [-> ->].
    cbn [exponentPart]. unfold numberOfToken. subst digits.
    cbn [app Z.to_N Z.opp]. now rewrite !N.mul_1_r.
Qed.

Lemma matchNumber_none (s : jsstring) : noDigit s -> matchNumber s = None.
Proof.
  intros H. induction s as [|c s IH]; simpl; [reflexivity|].
  rewrite (H c (or_introl eq_refl)). apply IH. intros x Hx; apply H; now right.
Qed.

Lemma matchNumber_first (pre s : jsstring) :
  noDigit pre -> headIsDigit s = true -> matchNumber (pre ++ s) = Some (numberAt s).
Proof.
  intros Hpre Hs. induction pre as [|c pre IH]; simpl.
  - destruct s as [|d s]; [discriminate|]. simpl in Hs. cbn [matchNumber]. now rewrite Hs.
  - rewrite (Hpre c (or_introl eq_refl)). apply IH. intros x Hx; apply Hpre; now right.
Qed.

Lemma headIsDigit_app (ip r : jsstring) :
  allDigits ip -> ip <> [] -> headIsDigit (ip ++ r) = true.
Proof.
  intros H Hne. destruct ip as [|c ip]; [easy|]. simpl. apply H; now left.
Qed.

(** The regular expression takes exactly the first token. *)
Lemma matchNumber_FirstToken (str pre ip fp post : jsstring) :
  FirstToken str pre ip fp post ->
  matchNumber str = Some (ip ++ match fp with [] => [] | _ => DOT :: fp end).
Proof.
  intros (Hpre & Hip & Hne & Hfp & Hpost & Hstr).
  destruct fp as [|d fp'].
  - destruct Hstr as [-> Hdot].
    rewrite matchNumber_first by (try apply headIsDigit_app; assumption).
    f_equal. unfold numberAt.
    destruct (takeWhile_all isDigit ip Hip post) as [-> ->].
    { destruct post; [reflexivity | exact Hpost]. }
    rewrite app_nil_r.
    destruct post as [|c r]; [reflexivity|].
    destruct (N.eqb_spec c DOT) as [->|_]; [|reflexivity].
    specialize (Hdot r eq_refl).
    destruct r as [|x r]; [reflexivity|]. simpl in Hdot. simpl. now rewrite Hdot.
  - subst str.
    rewrite matchNumber_first by (try apply headIsDigit_app; assumption).
    f_equal. unfold numberAt.
    destruct (takeWhile_all isDigit ip Hip ([DOT] ++ (d :: fp') ++ post)) as [-> ->];
      [reflexivity|].
    cbn [app]. rewrite N.eqb_refl.
    change (d :: fp' ++ post) with ((d :: fp') ++ post).
    destruct (takeWhile_all isDigit (d :: fp') Hfp post) as [-> _].
    { destruct post; [reflexivity | exact Hpost]. }
    reflexivity.
Qed.

(** Every string without a token has no digit; every other one splits
    around its first token. *)
Lemma FirstToken_exists (str : jsstring) :
  noDigit str \/ exists pre ip fp post, FirstToken str pre ip fp post.
Proof.
  set (notDigit := fun c => negb (isDigit c)).
  pose proof (takeWhile_dropWhile notDigit str) as Hsplit.
  assert (Hpre : noDigit (takeWhile notDigit str)).
  { clear Hsplit. induction str as [|c s IH]; simpl; [easy|].
    unfold notDigit at 1. destruct (isDigit c) eqn:E; simpl; [easy|].
    intros x [<-|Hx]; [exact E | now apply IH]. }
  destruct (dropWhile notDigit str) as [|c s] eqn:Hs.
  { left. rewrite app_nil_r in Hsplit. now rewrite <- Hsplit. }
  right. apply dropWhile_head in Hs as Hc. unfold notDigit in Hc.
  apply negb_false_iff in Hc.
  set (t := c :: s) in *.
  assert (Hrun : forall l : jsstring, allDigits (takeWhile isDigit l)).
  { intros l. induction l as [|x l IH]; simpl; [easy|].
    destruct (isDigit x) eqn:E; [|easy].
    intros y [<-|Hy]; [exact E | now apply IH]. }
  assert (Hstop : forall l : jsstring, headIsDigit (dropWhile isDigit l) = false).
  { intros l. destruct (dropWhile isDigit l) as [|x r] eqn:E; [reflexivity|].
    simpl. now apply dropWhile_head in E. }
  assert (Hne : takeWhile isDigit t <> []) by (subst t; simpl; now rewrite Hc).
  pose proof (takeWhile_dropWhile isDigit t) as Ht.
  destruct (dropWhile isDigit t) as [|x r] eqn:Hr.
  { exists (takeWhile notDigit str), (takeWhile isDigit t), [], [].
    repeat split; try easy; try apply Hrun.
    now rewrite Ht. }
  destruct (N.eqb_spec x DOT) as [->|Hx].
  - destruct (takeWhile isDigit r) as [|d fp'] eqn:Hfp.
    + exists (takeWhile notDigit str), (takeWhile isDigit t), [], (DOT :: r).
      repeat split; try easy; try apply Hrun.
      * now rewrite Ht.
      * intros r' [= <-]. destruct r as [|y r]; [reflexivity|].
        simpl in Hfp |- *. now destruct (isDigit y).
    + exists (takeWhile notDigit str), (takeWhile isDigit t), (d :: fp'),
        (dropWhile isDigit r).
      repeat split; try easy; try apply Hrun; try apply Hstop.
      * rewrite <- Hfp. apply Hrun.
      * rewrite <- Hfp. cbn [app].
        rewrite (takeWhile_dropWhile isDigit r), Ht. now symmetry.
  - exists (takeWhile notDigit str), (takeWhile isDigit t), [], (x :: r).
    repeat split; try easy; try apply Hrun.
    + specialize (Hstop t). now rewrite Hr in Hstop.
    + now rewrite Ht.
    + intros r' [= -> _]. easy.
Qed.

(** [extractNumericValue] on a string without digits, and on any other. *)
Lemma extractNumericValue_noDigit (str : jsstring) :
  noDigit str -> extractNumericValue str = zero.
Proof. intros H. unfold extractNumericValue. now rewrite matchNumber_none. Qed.

Lemma extractNumericValue_FirstToken (str pre ip fp post : jsstring) :
  FirstToken str pre ip fp post -> extractNumericValue str = numberOfToken ip fp.
Proof.
  intros H. unfold extractNumericValue.
  rewrite (matchNumber_FirstToken _ _ _ _ _ H).
  destruct H as (_ & Hip & Hne & Hfp & _). now apply parseFloat_token.
Qed.

(** The extracted value is never [NaN], negative or the negative zero. *)
Lemma extractNumericValue_shape (str : jsstring) :
  (exists k, extractNumericValue str = Finite false k) \/
  extractNumericValue str = Infinity false.
Proof.
  destruct (FirstToken_exists str) as [H|(pre & ip & fp & post & H)].
  - left. exists 0. now apply extractNumericValue_noDigit.
  - rewrite (extractNumericValue_FirstToken _ _ _ _ _ H).
    apply roundTiesToEven_shape.
Qed.

Lemma strictEquals_zero (str : jsstring) :
  strictEquals (extractNumericValue str) zero = true <-> extractNumericValue str = zero.
Proof.
  destruct (extractNumericValue_shape str) as [[k ->]| ->]; unfold zero; simpl.
  - destruct (N.eqb_spec k 0) as [->|Hk]; simpl; [easy|].
    split; [discriminate | intros [= E]; contradiction].
  - split; discriminate.
Qed.

(* ================================================================== *)
(** ** The parser: properties of the specification *)
(* ================================================================== *)

(** C1. [parseNutritionResult] is a total function: for every input string
    it returns a record of exactly five strings (calories, protein, carbs,
    fat, tip), and every field whose label is matched by no line of the
    input is the empty string. *)
Theorem parseNutritionResult_total_five_fields (result : jsstring) :
  (exists calories protein carbs fat tip : jsstring,
     parseNutritionResult result
     = NutritionData.mk calories protein carbs fat tip) /\
  (forall f : Field,
     (forall line, In line (split LF result) ->
                   test (labelOf f) (trim line) = false) ->
     field f (parseNutritionResult result) = []).
Proof.
  split.
  - destruct (parseNutritionResult result) as [c p b f t].
    now exists c, p, b, f, t.
  - intros f H. now apply field_unmatched.
Qed.

Lemma parseNutritionResult_total_five_fields_witness :
  (forall line, In line (split LF (js "Protein: 32g")) ->
                test (labelOf Tip) (trim line) = false) /\
  field Tip (parseNutritionResult (js "Protein: 32g")) = [].
Proof.
  assert (H : forall line, In line (split LF (js "Protein: 32g")) ->
                           test (labelOf Tip) (trim line) = false).
  { intros line Hin. vm_compute in Hin. destruct Hin as [<-|[]]. reflexivity. }
  split; [exact H|].
  exact (proj2 (parseNutritionResult_total_five_fields (js "Protein: 32g")) Tip H).
Defined.

(** C2. The five-line input "Calories: 720 kcal / Protein: 32g / Carbs: 65g
    / Fat: 28g / Tip: Add veggies." parses to calories "720 kcal", protein
    "32g", carbs "65g", fat "28g" and tip "Add veggies.". *)
Theorem parse_five_labelled_lines :
  parseNutritionResult
    (unlines ["Calories: 720 kcal"; "Protein: 32g"; "Carbs: 65g"; "Fat: 28g";
              "Tip: Add veggies."]%string)
  = NutritionData.mk (js "720 kcal") (js "32g") (js "65g") (js "28g")
      (js "Add veggies.").
Proof. vm_compute. reflexivity. Qed.

(** C3. Once a line has matched [tip:], every later line that is not empty
    when trimmed and matches none of the five labels is appended to the tip,
    each behind a single space and in the order met; in particular
    "Tip: Eat more fiber. / Also drink water." gives the tip
    "Eat more fiber. Also drink water.". *)
Theorem tip_continuation_lines_appended :
  (forall (result : jsstring) (pre post : list jsstring) (tipLine : jsstring),
     split LF result = pre ++ tipLine :: post ->
     (forall l, In l pre -> test tipLabel (trim l) = false) ->
     test tipLabel (trim tipLine) = true ->
     NutritionData.tip (parseNutritionResult result)
     = appendAll (lastValue tipLabel (tipLine :: post))
         (map trim (filter isContinuation post))) /\
  NutritionData.tip
    (parseNutritionResult
       (unlines ["Tip: Eat more fiber."; "Also drink water."]%string))
  = js "Eat more fiber. Also drink water.".
Proof.
  split; [|vm_compute; reflexivity].
  intros result pre post tipLine Hsplit Hpre Htip.
  rewrite parseNutritionResult_closed_form; cbn [NutritionData.tip].
  rewrite Hsplit, lastValue_skip by exact Hpre.
  now rewrite continuations_split.
Qed.

Lemma tip_continuation_lines_appended_witness :
  NutritionData.tip
    (parseNutritionResult
       (unlines ["Fat: 28g"; "Tip: Eat more fiber."; ""; "  Also drink water.";
                 "Carbs: 65g"; "Sleep well."]%string))
  = js "Eat more fiber. Also drink water. Sleep well.".
Proof.
  rewrite (proj1 tip_continuation_lines_appended _
             [js "Fat: 28g"] (map js [""; "  Also drink water."; "Carbs: 65g";
                                      "Sleep well."]%string)
             (js "Tip: Eat more fiber.")).
  - vm_compute. reflexivity.
  - vm_compute. reflexivity.
  - intros l Hin. vm_compute in Hin. destruct Hin as [<-|[]]. reflexivity.
  - vm_compute. reflexivity.
Defined.

(** C4, as the claim states it, fails: for "Tip: A / X / Tip: B" the tip is
    not "B". *)
Lemma tip_recurrence_keeps_continuation :
  NutritionData.tip
    (parseNutritionResult (unlines ["Tip: A"; "X"; "Tip: B"]%string))
  <> js "B".
Proof. vm_compute. discriminate. Qed.

(** C4, amended. When a label recurs the later match overwrites the value
    stored for that field (last write wins), for each of the five fields;
    the continuation lines are collected apart from the stored tip and are
    appended to it after the last line, so that for "Tip: A / X / Tip: B",
    with X a non-empty line matching no label, the tip is "B" followed by a
    space and the trimmed X. *)
Theorem tip_recurrence_last_write_wins :
  (forall result : jsstring,
     let lines := split LF result in
     parseNutritionResult result
     = NutritionData.mk
         (lastValue caloriesLabel lines) (lastValue proteinLabel lines)
         (lastValue carbsLabel lines) (lastValue fatLabel lines)
         (appendAll (lastValue tipLabel lines) (continuations lines))) /\
  (forall X : jsstring,
     (forall c, In c X -> c <> LF) -> isContinuation X = true ->
     NutritionData.tip
       (parseNutritionResult (js "Tip: A" ++ [LF] ++ X ++ [LF] ++ js "Tip: B"))
     = js "B" ++ [SP] ++ trim X).
Proof.
  split; [exact parseNutritionResult_closed_form|].
  intros X HX Hcont.
  rewrite parseNutritionResult_closed_form; cbn [NutritionData.tip].
  assert (Hlines : split LF (js "Tip: A" ++ [LF] ++ X ++ [LF] ++ js "Tip: B")
                   = [js "Tip: A"; X; js "Tip: B"]).
  { cbn [app]. rewrite split_line.
    2:{ intros c Hc. vm_compute in Hc.
        repeat (destruct Hc as [<-|Hc]; [discriminate|]). destruct Hc. }
    rewrite split_line by exact HX. reflexivity. }
  rewrite Hlines.
  assert (HXtip : matchesLabel tipLabel X = false).
  { unfold isContinuation, isLabelLine in Hcont.
    destruct (matchesLabel tipLabel X); [|reflexivity].
    now rewrite !orb_true_r in Hcont. }
  unfold lastValue, continuations, appendAll.
  cbn [filter afterFirstTip].
  change (matchesLabel tipLabel (js "Tip: A")) with true.
  change (matchesLabel tipLabel (js "Tip: B")) with true.
  rewrite HXtip. cbn [filter]. rewrite Hcont.
  change (isContinuation (js "Tip: B")) with false.
  cbn [map last concat].
  change (labelValue tipLabel (js "Tip: B")) with (js "B").
  now rewrite app_nil_r.
Qed.

Lemma tip_recurrence_last_write_wins_witness :
  NutritionData.tip
    (parseNutritionResult (unlines ["Tip: A"; "X"; "Tip: B"]%string))
  = js "B X".
Proof.
  change (unlines ["Tip: A"; "X"; "Tip: B"]%string)
    with (js "Tip: A" ++ [LF] ++ js "X" ++ [LF] ++ js "Tip: B").
  rewrite (proj2 tip_recurrence_last_write_wins (js "X")).
  - vm_compute. reflexivity.
  - intros c Hc. vm_compute in Hc. destruct Hc as [<-|[]]. discriminate.
  - vm_compute. reflexivity.
Defined.

(** C5. Label matching is anchored at the start of the trimmed line: when no
    trimmed line of the input begins with a field's label, colon included
    and letter case aside, that field is the empty string, wherever else the
    label may occur; so a label in the middle of a line, or one without its
    colon, leaves the field empty. *)
Theorem label_anchored_at_trimmed_line_start :
  (forall (f : Field) (result : jsstring),
     (forall line, In line (split LF result) ->
                   ~ beginsWith (labelOf f) (trim line)) ->
     field f (parseNutritionResult result) = []) /\
  NutritionData.calories (parseNutritionResult (js "Total calories: 500")) = [] /\
  NutritionData.calories (parseNutritionResult (js "Calories 500")) = [].
Proof.
  split; [|split; vm_compute; reflexivity].
  intros f result H. apply field_unmatched.
  intros line Hin. unfold matchesLabel.
  destruct (test (labelOf f) (trim line)) eqn:E; [|reflexivity].
  apply test_beginsWith in E. now destruct (H line Hin).
Qed.

Lemma label_anchored_at_trimmed_line_start_witness :
  field Fat
    (parseNutritionResult
       (unlines ["Low in fat: yes"; "  fat 28g"; "Protein: 32g"]%string)) = [].
Proof.
  apply (proj1 label_anchored_at_trimmed_line_start).
  intros line Hin Hb. apply test_beginsWith in Hb. revert Hb.
  vm_compute in Hin.
  destruct Hin as [<-|[<-|[<-|[]]]]; vm_compute; discriminate.
Defined.

(** C10. When the remainder of the [tip:] line is empty and at least one
    continuation line follows, the tip is one space followed by the
    continuation lines joined by single spaces, and the joined text does not
    itself begin with white space; "Tip: / Drink water." gives the tip
    " Drink water.". *)
Theorem empty_tip_gets_leading_space :
  (forall (result : jsstring) (pre post : list jsstring) (tipLine : jsstring),
     split LF result = pre ++ tipLine :: post ->
     (forall l, In l pre -> test tipLabel (trim l) = false) ->
     test tipLabel (trim tipLine) = true ->
     lastValue tipLabel (tipLine :: post) = [] ->
     filter isContinuation post <> [] ->
     let text := join [SP] (map trim (filter isContinuation post)) in
     NutritionData.tip (parseNutritionResult result) = SP :: text /\
     exists c rest, text = c :: rest /\ isSpace c = false) /\
  NutritionData.tip (parseNutritionResult (unlines ["Tip:"; "Drink water."]%string))
  = js " Drink water.".
Proof.
  split; [|vm_compute; reflexivity].
  intros result pre post tipLine Hsplit Hpre Htip Hval Hconts text.
  split.
  - rewrite parseNutritionResult_closed_form; cbn [NutritionData.tip].
    rewrite Hsplit, lastValue_skip, Hval by exact Hpre.
    rewrite continuations_split by assumption.
    unfold appendAll. rewrite <- join_space; [reflexivity|].
    destruct (filter isContinuation post); [easy | discriminate].
  - subst text.
    destruct (filter isContinuation post) as [|l ls] eqn:E; [easy|].
    assert (Hl : isContinuation l = true).
    { assert (In l (filter isContinuation post)) as Hin by (rewrite E; now left).
      now apply filter_In in Hin. }
    unfold isContinuation in Hl. apply andb_prop in Hl as [_ Hl].
    destruct (trim l) as [|c r] eqn:Et; [discriminate|].
    pose proof (trim_head _ _ _ Et) as Hc.
    cbn [map]. rewrite Et.
    destruct (map trim ls); [now exists c, r | eexists c, _; split; [reflexivity | exact Hc]].
Qed.

Lemma empty_tip_gets_leading_space_witness :
  NutritionData.tip
    (parseNutritionResult (unlines ["Fat: 1g"; "tip:   "; "Drink"; "water."]%string))
  = js " Drink water.".
Proof.
  destruct (proj1 empty_tip_gets_leading_space
              (unlines ["Fat: 1g"; "tip:   "; "Drink"; "water."]%string)
              [js "Fat: 1g"] [js "Drink"; js "water."] (js "tip:   ")) as [H _].
  - vm_compute. reflexivity.
  - intros l Hin. vm_compute in Hin. destruct Hin as [<-|[]]. reflexivity.
  - vm_compute. reflexivity.
  - vm_compute. reflexivity.
  - vm_compute. discriminate.
  - rewrite H. vm_compute. reflexivity.
Defined.

(* ================================================================== *)
(** ** The numeric extractor, the totals and the chart fallback *)
(* ================================================================== *)

Lemma numberOfToken_integer (ip : jsstring) :
  decimalValue ip < safeBound -> numberOfToken ip [] = integer (decimalValue ip).
Proof.
  intros H. unfold numberOfToken. rewrite app_nil_r.
  cbn [List.length N.of_nat]. rewrite N.pow_0_r, integer_unfold.
  apply roundTiesToEven_exact; [exact H | now apply integer_magnitude_bound].
Qed.

(** C6. [extractNumericValue] returns 0 when the string holds no numeric
    token (no digit at all), and otherwise the Number of the first token,
    digits with at most one decimal point inside: its decimal value rounded
    to binary64, which for a whole token below 2^53 is that natural number
    itself.  So "32g" gives 32, "~720 kcal" gives 720, "no data" gives 0,
    "3.5g" gives 3.5 and the range "20-30g" gives 20. *)
Theorem extractNumericValue_first_token :
  (forall str, noDigit str -> extractNumericValue str = zero) /\
  (forall str pre ip fp post,
     FirstToken str pre ip fp post ->
     extractNumericValue str = numberOfToken ip fp) /\
  (forall str,
     noDigit str \/ exists pre ip fp post, FirstToken str pre ip fp post) /\
  (forall ip, decimalValue ip < safeBound ->
              numberOfToken ip [] = integer (decimalValue ip)) /\
  extractNumericValue (js "32g") = integer 32 /\
  extractNumericValue (js "~720 kcal") = integer 720 /\
  extractNumericValue (js "no data") = zero /\
  extractNumericValue (js "3.5g") = dyadic 7 (-1) /\
  extractNumericValue (js "20-30g") = integer 20.
Proof.
  split; [exact extractNumericValue_noDigit|].
  split; [exact extractNumericValue_FirstToken|].
  split; [exact FirstToken_exists|].
  split; [exact numberOfToken_integer|].
  repeat split; vm_compute; reflexivity.
Qed.

Lemma extractNumericValue_first_token_witness :
  extractNumericValue (js "about 12.50 g (or 13)") = dyadic 25 (-1).
Proof.
  rewrite (proj1 (proj2 extractNumericValue_first_token) _
             (js "about ") (js "12") (js "50") (js " g (or 13)")).
  - vm_compute. reflexivity.
  - repeat split; try (intros c Hc; vm_compute in Hc;
      repeat (destruct Hc as [<-|Hc]; [reflexivity|]); destruct Hc).
    discriminate.
Defined.

Lemma reduce_sumOf {A : Type} (f : A -> number) (ms : list A) :
  reduce (fun sum meal => add sum (f meal)) ms zero = sumOf (map f ms).
Proof.
  unfold reduce, sumOf. generalize zero.
  induction ms as [|m ms IH]; intros acc; simpl; [reflexivity | apply IH].
Qed.

Lemma sumOf_snoc (xs : list number) (x : number) :
  sumOf (xs ++ [x]) = add (sumOf xs) x.
Proof. unfold sumOf. now rewrite fold_left_app. Qed.

Lemma sumOf_integers (ns : list N) :
  sumN ns < safeBound -> sumOf (map integer ns) = integer (sumN ns).
Proof.
  intros H. rewrite <- (reduce_add_integer integer ns ns eq_refl H).
  symmetry. apply reduce_sumOf.
Qed.

(** C7. The daily totals are the sums of the four numeric fields, each taken
    on its own over the sequence of meals in order: no meals give four
    zeros, one more meal adds its four fields to the four totals, fields
    holding natural numbers give exactly their arithmetic sum (below 2^53),
    and two meals of 500 and 300 calories give 800 calories in total. *)
Theorem dailyTotals_field_sums :
  (forall ms,
     dailyTotals ms
     = mkDailyTotals
         (sumOf (map MealEntry.calories ms)) (sumOf (map MealEntry.protein ms))
         (sumOf (map MealEntry.carbs ms)) (sumOf (map MealEntry.fat ms))) /\
  sumOf [] = zero /\
  (forall xs x, sumOf (xs ++ [x]) = add (sumOf xs) x) /\
  (forall ns, sumN ns < safeBound -> sumOf (map integer ns) = integer (sumN ns)) /\
  dailyTotals [] = mkDailyTotals zero zero zero zero /\
  (forall m1 m2,
     MealEntry.calories m1 = integer 500 ->
     MealEntry.calories m2 = integer 300 ->
     totalCalories (dailyTotals [m1; m2]) = integer 800).
Proof.
  split.
  { intros ms. unfold dailyTotals. now rewrite !reduce_sumOf. }
  split; [reflexivity|].
  split; [exact sumOf_snoc|].
  split; [exact sumOf_integers|].
  split; [reflexivity|].
  intros m1 m2 H1 H2. unfold dailyTotals; cbn [totalCalories].
  rewrite (reduce_add_integer MealEntry.calories [m1; m2] [500; 300]).
  - reflexivity.
  - simpl. now rewrite H1, H2.
  - vm_compute. reflexivity.
Qed.

Lemma dailyTotals_field_sums_witness :
  totalCalories
    (dailyTotals
       [MealEntry.mk (integer 1) (js "AI Analyzed Meal")
          (integer 500) (integer 30) (integer 40) (integer 20) 1;
        MealEntry.mk (integer 2) (js "AI Analyzed Meal")
          (integer 300) (integer 10) (integer 45) (integer 9) 2])
  = integer 800.
Proof.
  apply (proj2 (proj2 (proj2 (proj2 (proj2 dailyTotals_field_sums))))); reflexivity.
Defined.

(** C8, as the claim states it, fails: three saved meals of 0.1, 0.2 and 0.3
    calories total 0.6000000000000001 in the order saved and 0.6 in the
    reverse order. *)
Lemma dailyTotals_depend_on_order :
  Permutation threeSnacks (rev threeSnacks) /\
  map MealEntry.calories threeSnacks
  = [parseFloat (js "0.1"); parseFloat (js "0.2"); parseFloat (js "0.3")] /\
  totalCalories (dailyTotals threeSnacks) = dyadic 5404319552844596 (-53) /\
  totalCalories (dailyTotals (rev threeSnacks)) = dyadic 5404319552844595 (-53) /\
  dailyTotals (rev threeSnacks) <> dailyTotals threeSnacks.
Proof.
  split; [apply Permutation_rev|].
  split; [vm_compute; reflexivity|].
  split; [vm_compute; reflexivity|].
  split; [vm_compute; reflexivity|].
  vm_compute. discriminate.
Qed.

(** C8, amended. For meals whose four numeric fields hold natural numbers,
    each field summing to less than 2^53, the four daily totals of every
    permutation of the list equal those of the list itself. *)
Theorem dailyTotals_order_independent
    (ms ms' : list MealEntry.t) (cs ps bs fs : list N) :
  Permutation ms ms' ->
  naturalValued MealEntry.calories ms cs ->
  naturalValued MealEntry.protein ms ps ->
  naturalValued MealEntry.carbs ms bs ->
  naturalValued MealEntry.fat ms fs ->
  dailyTotals ms' = dailyTotals ms.
Proof.
  intros Hperm Hc Hp Hb Hf.
  assert (X : forall (f : MealEntry.t -> number) ns,
             naturalValued f ms ns ->
             reduce (fun sum meal => add sum (f meal)) ms' zero
             = reduce (fun sum meal => add sum (f meal)) ms zero).
  { intros f ns [Hmap Hsum].
    assert (Permutation (map f ms') (map integer ns)) as Hp'.
    { rewrite <- Hmap. apply Permutation_map. now symmetry. }
    apply Permutation_map_inv in Hp' as (ns' & Hmap' & Hns).
    rewrite (reduce_add_integer f ms ns Hmap Hsum).
    rewrite (reduce_add_integer f ms' ns' Hmap').
    - now rewrite (sumN_permutation _ _ Hns).
    - now rewrite <- (sumN_permutation _ _ Hns). }
  unfold dailyTotals.
  now rewrite (X _ _ Hc), (X _ _ Hp), (X _ _ Hb), (X _ _ Hf).
Qed.

Lemma dailyTotals_order_independent_witness :
  dailyTotals
    [MealEntry.mk (integer 2) (js "AI Analyzed Meal")
       (integer 300) (integer 10) (integer 45) (integer 9) 2;
     MealEntry.mk (integer 1) (js "AI Analyzed Meal")
       (integer 500) (integer 30) (integer 40) (integer 20) 1]
  = dailyTotals
      [MealEntry.mk (integer 1) (js "AI Analyzed Meal")
         (integer 500) (integer 30) (integer 40) (integer 20) 1;
       MealEntry.mk (integer 2) (js "AI Analyzed Meal")
         (integer 300) (integer 10) (integer 45) (integer 9) 2].
Proof.
  apply (dailyTotals_order_independent _ _ [500; 300] [30; 10] [40; 45] [20; 9]).
  - apply perm_swap.
  - split; [reflexivity | vm_compute; reflexivity].
  - split; [reflexivity | vm_compute; reflexivity].
  - split; [reflexivity | vm_compute; reflexivity].
  - split; [reflexivity | vm_compute; reflexivity].
Defined.

(** C9. [NutritionPieChart] shows the "no data" fallback exactly when the
    three values extracted from the protein, carbs and fat strings are all
    zero, and the pie over these three values otherwise; protein, carbs and
    fat all "N/A" give the fallback. *)
Theorem chart_fallback_iff_all_zero :
  (forall nd : NutritionData.t,
     let p := extractNumericValue (NutritionData.protein nd) in
     let c := extractNumericValue (NutritionData.carbs nd) in
     let f := extractNumericValue (NutritionData.fat nd) in
     (NutritionPieChart nd = NoMacroData <-> p = zero /\ c = zero /\ f = zero) /\
     (NutritionPieChart nd = NoMacroData \/ NutritionPieChart nd = Pie [p; c; f])) /\
  (forall calories tip : jsstring,
     NutritionPieChart
       (NutritionData.mk calories (js "N/A") (js "N/A") (js "N/A") tip)
     = NoMacroData).
Proof.
  split; [|intros calories tip; vm_compute; reflexivity].
  intros nd p c f. unfold NutritionPieChart. fold p c f.
  pose proof (strictEquals_zero (NutritionData.protein nd)) as Hp.
  pose proof (strictEquals_zero (NutritionData.carbs nd)) as Hc.
  pose proof (strictEquals_zero (NutritionData.fat nd)) as Hf.
  fold p in Hp. fold c in Hc. fold f in Hf.
  destruct (strictEquals p zero); destruct (strictEquals c zero);
    destruct (strictEquals f zero); cbn [andb];
    (split; [split; [intros H | intros (H1 & H2 & H3)] | auto]);
    try discriminate;
    try (repeat split; (apply Hp || apply Hc || apply Hf); reflexivity);
    try (apply Hp in H1; discriminate);
    try (apply Hc in H2; discriminate);
    try (apply Hf in H3; discriminate).
Qed.

Lemma chart_fallback_iff_all_zero_witness :
  NutritionPieChart
    (NutritionData.mk (js "720 kcal") (js "n/a") (js "0g") (js "0.0 g") (js ""))
  = NoMacroData.
Proof.
  apply (proj1 (chart_fallback_iff_all_zero)).
  repeat split; vm_compute; reflexivity.
Defined.

(* ================================================================== *)
(** ** More on trimming and splitting *)
(* ================================================================== *)

Lemma dropWhile_snoc {A} (p : A -> bool) (l : list A) (c : A) :
  dropWhile p (l ++ [c]) =
  match dropWhile p l with
  | [] => if p c then [] else [c]
  | r => r ++ [c]
  end.
Proof.
  induction l as [|x l IH]; simpl; [reflexivity|].
  destruct (p x); [exact IH | reflexivity].
Qed.

(** [trimEnd], from the head of the string. *)
Lemma trimEnd_cons (c : codeunit) (r : jsstring) :
  trimEnd (c :: r) =
  match trimEnd r with
  | [] => if isSpace c then [] else [c]
  | r' => c :: r'
  end.
Proof.
  unfold trimEnd. simpl rev. rewrite dropWhile_snoc.
  destruct (dropWhile isSpace (rev r)) as [|x l]; simpl.
  - now destruct (isSpace c).
  - rewrite rev_app_distr. simpl.
    destruct (rev l ++ [x]) eqn:E; [now destruct (rev l)|reflexivity].
Qed.

Lemma trimEnd_nil : trimEnd [] = [].
Proof. reflexivity. Qed.

Lemma trimEnd_blank (w : jsstring) : isBlank w = true -> trimEnd w = [].
Proof.
  induction w as [|c w IH]; [reflexivity|]. simpl.
  intros [Hc Hw]%andb_prop. now rewrite trimEnd_cons, IH, Hc.
Qed.

Lemma trimStart_blank (w : jsstring) : isBlank w = true -> trimStart w = [].
Proof.
  unfold trimStart. induction w as [|c w IH]; [reflexivity|]. simpl.
  intros [Hc Hw]%andb_prop. rewrite Hc. now apply IH.
Qed.

Lemma trim_blank (w : jsstring) : isBlank w = true -> trim w = [].
Proof. intros H. unfold trim. now rewrite trimStart_blank. Qed.

Lemma trimEnd_app_blank (l w : jsstring) :
  isBlank w = true -> trimEnd (l ++ w) = trimEnd l.
Proof.
  intros Hw. induction l as [|c l IH]; simpl.
  - now apply trimEnd_blank.
  - now rewrite !trimEnd_cons, IH.
Qed.

(** A head that ends in a code unit other than white space is kept. *)
Lemma trimEnd_app_head (h v : jsstring) :
  h <> [] -> isSpace (last h 0) = false -> trimEnd (h ++ v) = h ++ trimEnd v.
Proof.
  induction h as [|c h IH]; [easy|]. intros _ Hlast.
  destruct h as [|d h].
  - simpl in *. rewrite trimEnd_cons, Hlast. now destruct (trimEnd v).
  - change ((c :: d :: h) ++ v) with (c :: (d :: h) ++ v).
    rewrite trimEnd_cons, IH by easy. reflexivity.
Qed.

Lemma trimEnd_head (c : codeunit) (r : jsstring) :
  isSpace c = false -> exists r', trimEnd (c :: r) = c :: r'.
Proof.
  intros Hc. rewrite trimEnd_cons, Hc. destruct (trimEnd r); eauto.
Qed.

Lemma trimStart_trimEnd (s : jsstring) :
  trimStart (trimEnd s) = trimEnd (trimStart s).
Proof.
  unfold trimStart. induction s as [|c s IH]; [reflexivity|].
  rewrite trimEnd_cons. simpl dropWhile at 2.
  destruct (isSpace c) eqn:Hc.
  - rewrite <- IH. destruct (trimEnd s); simpl; [reflexivity | now rewrite Hc].
  - rewrite trimEnd_cons, Hc. destruct (trimEnd s); simpl; now rewrite Hc.
Qed.

Lemma trimEnd_idempotent (s : jsstring) : trimEnd (trimEnd s) = trimEnd s.
Proof.
  induction s as [|c s IH]; [reflexivity|].
  rewrite trimEnd_cons. destruct (trimEnd s) as [|x r] eqn:E.
  - destruct (isSpace c) eqn:Hc; [reflexivity|]. now rewrite trimEnd_cons, Hc.
  - now rewrite trimEnd_cons, IH.
Qed.

Lemma trimStart_idempotent (s : jsstring) : trimStart (trimStart s) = trimStart s.
Proof.
  unfold trimStart. destruct (dropWhile isSpace s) as [|c r] eqn:E; [reflexivity|].
  apply dropWhile_stop. now apply dropWhile_head in E.
Qed.

Lemma trim_idempotent (s : jsstring) : trim (trim s) = trim s.
Proof.
  unfold trim.
  now rewrite (trimStart_trimEnd (trimStart s)), trimStart_idempotent,
    trimEnd_idempotent.
Qed.

Lemma trim_trimStart (s : jsstring) : trim (trimStart s) = trim s.
Proof. unfold trim. now rewrite trimStart_idempotent. Qed.

Lemma trim_trimEnd (s : jsstring) : trim (trimEnd s) = trim s.
Proof. unfold trim. now rewrite trimStart_trimEnd, trimEnd_idempotent. Qed.

Lemma trim_app_blank (l w : jsstring) : isBlank w = true -> trim (l ++ w) = trim l.
Proof.
  intros Hw. unfold trim.
  now rewrite <- !trimStart_trimEnd, trimEnd_app_blank.
Qed.

Lemma In_dropWhile {A} (p : A -> bool) (l : list A) x : In x (dropWhile p l) -> In x l.
Proof.
  induction l as [|y l IH]; simpl; [easy|].
  destruct (p y); [intros H; right; now apply IH | easy].
Qed.

Lemma In_trimEnd (s : jsstring) x : In x (trimEnd s) -> In x s.
Proof.
  unfold trimEnd. rewrite <- in_rev. intros H%In_dropWhile. now apply in_rev.
Qed.

Lemma In_trim (s : jsstring) x : In x (trim s) -> In x s.
Proof. unfold trim, trimStart. intros H%In_trimEnd. now apply In_dropWhile in H. Qed.

(** A trimmed string neither starts nor ends with white space. *)
Lemma trim_head_kept (c : codeunit) (r : jsstring) :
  isSpace c = false -> exists r', trim (c :: r) = c :: r'.
Proof.
  intros Hc. unfold trim, trimStart. rewrite dropWhile_stop by exact Hc.
  now apply trimEnd_head.
Qed.

Lemma split_nonempty (s : jsstring) : split LF s <> [].
Proof.
  induction s as [|c s IH]; simpl; [easy|].
  destruct (c =? LF); [easy|]. now destruct (split LF s).
Qed.

(** Splitting distributes over a line feed. *)
Lemma split_app (a b : jsstring) :
  split LF (a ++ LF :: b) = split LF a ++ split LF b.
Proof.
  induction a as [|c a IH]; [reflexivity|]. simpl.
  destruct (c =? LF); [now rewrite IH|]. rewrite IH.
  pose proof (split_nonempty a). now destruct (split LF a).
Qed.

Lemma split_singleLine (a : jsstring) : singleLine a -> split LF a = [a].
Proof.
  intros H. induction a as [|c a IH]; simpl; [reflexivity|].
  destruct (N.eqb_spec c LF) as [E|_].
  - now destruct (H c (or_introl eq_refl)).
  - rewrite IH; [reflexivity|]. intros x Hx; apply H; now right.
Qed.

(** No piece of a split holds a line feed, and every code unit of a piece
    is one of the string. *)
Lemma split_pieces (s : jsstring) (l : jsstring) :
  In l (split LF s) -> singleLine l /\ (forall c, In c l -> In c s).
Proof.
  revert l. induction s as [|c s IH]; simpl; intros l.
  - intros [<-|[]]. split; easy.
  - destruct (N.eqb_spec c LF) as [->|Hc].
    + intros [<-|H]; [split; easy|].
      destruct (IH l H) as [H1 H2]. split; [exact H1 | auto].
    + pose proof (split_nonempty s). destruct (split LF s) as [|p ps]; [easy|].
      intros [<-|H0].
      * destruct (IH p (or_introl eq_refl)) as [H1 H2]. split.
        -- intros x [<-|Hx]; [exact Hc | now apply H1].
        -- intros x [<-|Hx]; [now left | right; now apply H2].
      * destruct (IH l (or_intror H0)) as [H1 H2]. split; [exact H1 | auto].
Qed.

(* ================================================================== *)
(** ** The parser and white space *)
(* ================================================================== *)

Lemma parseLine_blank (st : ParseState) (l : jsstring) :
  isBlank l = true -> parseLine st l = st.
Proof.
  intros H. unfold parseLine. rewrite (trim_blank _ H).
  change (test caloriesLabel []) with false.
  change (test proteinLabel []) with false.
  change (test carbsLabel []) with false.
  change (test fatLabel []) with false.
  change (test tipLabel []) with false.
  cbn [List.length N.of_nat N.ltb N.compare]. now rewrite andb_false_r.
Qed.

Lemma parseLine_trim (st : ParseState) (l : jsstring) :
  parseLine st (trim l) = parseLine st l.
Proof. unfold parseLine. now rewrite trim_idempotent. Qed.

Lemma fold_parseLine_blank (ws : list jsstring) (st : ParseState) :
  (forall l, In l ws -> isBlank l = true) -> fold_left parseLine ws st = st.
Proof.
  induction ws as [|w ws IH]; intros H; simpl; [reflexivity|].
  rewrite parseLine_blank by (apply H; now left).
  apply IH. intros l Hl; apply H; now right.
Qed.

Lemma fold_parseLine_trim (ls : list jsstring) (st : ParseState) :
  fold_left parseLine (map trim ls) st = fold_left parseLine ls st.
Proof.
  revert st. induction ls as [|l ls IH]; intros st; simpl; [reflexivity|].
  now rewrite parseLine_trim, IH.
Qed.

(** The parser reads its lines trimmed, and nothing else of them. *)
Lemma parse_trimmed_lines (s s' : jsstring) :
  map trim (split LF s) = map trim (split LF s') ->
  parseNutritionResult s = parseNutritionResult s'.
Proof.
  intros H. unfold parseNutritionResult, parseLines.
  now rewrite <- (fold_parseLine_trim (split LF s)), H, fold_parseLine_trim.
Qed.

Lemma split_blank (w l : jsstring) :
  isBlank w = true -> In l (split LF w) -> isBlank l = true.
Proof.
  intros Hw Hl. apply split_pieces in Hl as [_ Hl].
  unfold isBlank in *. rewrite forallb_forall in *. auto.
Qed.

(** Lines of white space only, wherever they stand, change nothing. *)
Theorem blank_lines_ignored (a w b : jsstring) :
  isBlank w = true ->
  parseNutritionResult (a ++ LF :: w ++ LF :: b) = parseNutritionResult (a ++ LF :: b) /\
  parseNutritionResult (a ++ LF :: w) = parseNutritionResult a /\
  parseNutritionResult (w ++ LF :: b) = parseNutritionResult b.
Proof.
  intros Hw.
  pose proof (fun st => fold_parseLine_blank (split LF w) st
                          (fun l => split_blank w l Hw)) as Hfold.
  unfold parseNutritionResult, parseLines.
  rewrite !split_app, !fold_left_app, !Hfold. repeat split; reflexivity.
Qed.

Lemma blank_lines_ignored_witness :
  parseNutritionResult (unlines ["Fat: 28g"; "  "; ""; "Tip: Rest."]%string)
  = parseNutritionResult (unlines ["Fat: 28g"; "Tip: Rest."]%string).
Proof.
  change (unlines ["Fat: 28g"; "  "; ""; "Tip: Rest."]%string)
    with (js "Fat: 28g" ++ LF :: unlines ["  "; ""]%string ++ LF :: js "Tip: Rest.").
  now rewrite (proj1 (blank_lines_ignored (js "Fat: 28g")
                        (unlines ["  "; ""]%string) (js "Tip: Rest.") eq_refl)).
Defined.

Lemma split_toCRLF (s : jsstring) :
  Forall2 (fun l' l => exists w, isBlank w = true /\ l' = l ++ w)
    (split LF (toCRLF s)) (split LF s).
Proof.
  induction s as [|c s IH]; simpl.
  - constructor; [now exists [] | constructor].
  - destruct (N.eqb_spec c LF) as [->|Hc]; simpl.
    + constructor; [|exact IH]. now exists [CR].
    + destruct (N.eqb_spec c LF) as [E|_]; [easy|].
      pose proof (split_nonempty s).
      destruct IH as [|l' l ls' ls (w & Hw & ->) IH]; [easy|].
      constructor; [|exact IH]. now exists w.
Qed.

(** Text with Windows line ends parses like the same text with plain line
    feeds. *)
Theorem crlf_line_ends_ignored (s : jsstring) :
  parseNutritionResult (toCRLF s) = parseNutritionResult s.
Proof.
  apply parse_trimmed_lines.
  induction (split_toCRLF s) as [|l' l ls' ls (w & Hw & ->) _ IH]; simpl.
  - reflexivity.
  - now rewrite trim_app_blank, IH.
Qed.

(* ================================================================== *)
(** ** The shape of the parsed fields *)
(* ================================================================== *)

Lemma lastValue_cases (label : jsstring) (ls : list jsstring) :
  lastValue label ls = [] \/
  exists l, In l ls /\ lastValue label ls = labelValue label l.
Proof.
  induction ls as [|l ls IH] using rev_ind; [now left|].
  rewrite lastValue_snoc. destruct (matchesLabel label l).
  - right. exists l. split; [apply in_or_app; right; now left | reflexivity].
  - destruct IH as [IH|(x & Hx & IH)]; [now left|].
    right. exists x. split; [apply in_or_app; now left | exact IH].
Qed.

Lemma matchLiteral_In (pat s r : jsstring) :
  matchLiteral pat s = Some r -> forall c, In c r -> In c s.
Proof.
  revert s. induction pat as [|p pat IH]; intros s; simpl.
  - now intros [= ->].
  - destruct s as [|x s]; [discriminate|].
    destruct (canonicalize x =? canonicalize p); [|discriminate].
    intros H c Hc. right. now apply (IH s).
Qed.

Lemma replace_In (label s : jsstring) c : In c (replace label s) -> In c s.
Proof.
  unfold replace, regexMatch.
  destruct (matchLiteral label s) as [r|] eqn:E; [|easy].
  intros H%In_dropWhile. now apply (matchLiteral_In _ _ _ E).
Qed.

Lemma labelValue_In (label l : jsstring) c : In c (labelValue label l) -> In c l.
Proof. unfold labelValue. intros H%In_trim%replace_In. now apply In_trim. Qed.

Lemma afterFirstTip_In (ls : list jsstring) l : In l (afterFirstTip ls) -> In l ls.
Proof.
  induction ls as [|x ls IH]; simpl; [easy|].
  destruct (matchesLabel tipLabel x); [now right | intros H; right; now apply IH].
Qed.

Lemma lastValue_singleLine (label s : jsstring) :
  singleLine (lastValue label (split LF s)).
Proof.
  destruct (lastValue_cases label (split LF s)) as [->|(l & Hl & ->)]; [easy|].
  intros c Hc%labelValue_In. now apply (proj1 (split_pieces _ _ Hl)).
Qed.

Lemma lastValue_trimmed (label : jsstring) (ls : list jsstring) :
  trim (lastValue label ls) = lastValue label ls.
Proof.
  destruct (lastValue_cases label ls) as [->|(l & _ & ->)]; [reflexivity|].
  apply trim_idempotent.
Qed.

(** Every parsed field is a single line, and the calories, protein, carbs
    and fat values carry no white space at either end. *)
Theorem parsed_fields_single_line_and_trimmed (result : jsstring) (f : Field) :
  singleLine (field f (parseNutritionResult result)) /\
  (f <> Tip ->
   trim (field f (parseNutritionResult result)) = field f (parseNutritionResult result)).
Proof.
  rewrite parseNutritionResult_closed_form.
  destruct f; cbn [field NutritionData.calories NutritionData.protein
                   NutritionData.carbs NutritionData.fat NutritionData.tip];
    (split; [|try (intros _; apply lastValue_trimmed); easy]);
    try apply lastValue_singleLine.
  unfold appendAll. intros c [Hc|Hc]%in_app_or.
  - now apply lastValue_singleLine in Hc.
  - apply in_concat in Hc as (x & Hx & Hc).
    apply in_map_iff in Hx as (y & <- & Hy).
    destruct Hc as [<-|Hc]; [discriminate|].
    unfold continuations in Hy. apply in_map_iff in Hy as (l & <- & Hl).
    apply filter_In in Hl as [Hl%afterFirstTip_In _].
    apply In_trim in Hc. now apply (proj1 (split_pieces _ _ Hl)).
Qed.

Lemma parsed_fields_single_line_and_trimmed_witness :
  trim (field Calories (parseNutritionResult (js "  calories:   720 kcal  ")))
  = field Calories (parseNutritionResult (js "  calories:   720 kcal  ")).
Proof.
  apply (proj2 (parsed_fields_single_line_and_trimmed
                  (js "  calories:   720 kcal  ") Calories)).
  discriminate.
Defined.

(* ------------------------------------------------------------------ *)
(** *** Labelled lines in any letter case *)
(* ------------------------------------------------------------------ *)

Lemma canonicalize_space (c : codeunit) : isSpace (canonicalize c) = isSpace c.
Proof.
  unfold canonicalize.
  destruct ((97 <=? c) && (c <=? 122)) eqn:E; [|reflexivity].
  apply andb_prop in E as [H1%N.leb_le H2%N.leb_le].
  unfold isSpace, isWhiteSpace, isLineTerminator.
  assert (E1 : c - 32 = c - 32) by reflexivity.
  set (d := c - 32) in *. assert (65 <= d <= 90) by lia. clearbody d.
  transitivity false; [|symmetry]; decide_codeunit.
Qed.

Lemma caseVariant_noSpace (label h : jsstring) :
  noSpace label -> caseVariant label h -> noSpace h.
Proof.
  unfold caseVariant. revert label.
  induction h as [|c h IH]; intros [|p label] Hl Hv; try easy.
  simpl in Hv. injection Hv as Hc Hv.
  intros x [<-|Hx].
  - rewrite <- canonicalize_space, Hc, canonicalize_space. apply Hl; now left.
  - apply (IH label); [|exact Hv|exact Hx]. intros y Hy; apply Hl; now right.
Qed.

Lemma matchLiteral_caseVariant (label h r : jsstring) :
  caseVariant label h -> matchLiteral label (h ++ r) = Some r.
Proof.
  unfold caseVariant. revert h.
  induction label as [|p label IH]; intros [|c h] Hv; try easy.
  simpl in Hv. injection Hv as Hc Hv. simpl.
  rewrite Hc, N.eqb_refl. now apply IH.
Qed.

Lemma noSpace_last (h : jsstring) : h <> [] -> noSpace h -> isSpace (last h 0) = false.
Proof.
  intros Hne H. apply H. destruct h as [|c h]; [easy|].
  destruct (exists_last Hne) as (l & x & ->). rewrite last_last.
  apply in_or_app; right; now left.
Qed.

(** A line made of a label, in any letter case, and a value. *)
Lemma labelled_line (label h v : jsstring) :
  label <> [] -> noSpace label -> caseVariant label h ->
  matchesLabel label (h ++ v) = true /\ labelValue label (h ++ v) = trim v.
Proof.
  intros Hne Hl Hv.
  pose proof (caseVariant_noSpace _ _ Hl Hv) as Hh.
  assert (Hhne : h <> []).
  { intros ->. destruct label; [easy | discriminate]. }
  assert (Htrim : trim (h ++ v) = h ++ trimEnd v).
  { unfold trim, trimStart. destruct h as [|c h]; [easy|].
    cbn [app]. rewrite dropWhile_stop by (apply Hh; now left).
    change (c :: h ++ v) with ((c :: h) ++ v).
    apply trimEnd_app_head; [easy | now apply noSpace_last]. }
  unfold matchesLabel, labelValue, test, replace, regexMatch.
  rewrite Htrim, (matchLiteral_caseVariant _ _ _ Hv).
  split; [reflexivity|].
  fold (trimStart (trimEnd v)). now rewrite trim_trimStart, trim_trimEnd.
Qed.

Lemma label_facts (f : Field) : labelOf f <> [] /\ noSpace (labelOf f).
Proof.
  split; [now destruct f|].
  intros c Hc. destruct f; vm_compute in Hc;
    repeat (destruct Hc as [<-|Hc]; [reflexivity|]); destruct Hc.
Qed.

Lemma caseVariant_singleLine (f : Field) (h : jsstring) :
  caseVariant (labelOf f) h -> singleLine h.
Proof.
  intros Hv c Hc ->.
  pose proof (caseVariant_noSpace _ _ (proj2 (label_facts f)) Hv LF Hc).
  discriminate.
Qed.

(** A single line made of a label, written in any letter case, and a value
    parses to that value, trimmed, in the label's field. *)
Theorem labelled_line_any_case (f : Field) (h v : jsstring) :
  caseVariant (labelOf f) h -> singleLine v ->
  field f (parseNutritionResult (h ++ v)) = trim v.
Proof.
  intros Hv Hs.
  destruct (label_facts f) as [Hne Hl].
  destruct (labelled_line _ h v Hne Hl Hv) as [Hm Hval].
  rewrite parseNutritionResult_closed_form.
  rewrite split_singleLine.
  2:{ intros c [Hc|Hc]%in_app_or; [now apply (caseVariant_singleLine f h) | now apply Hs]. }
  assert (E : lastValue (labelOf f) [h ++ v] = trim v).
  { unfold lastValue. cbn [filter]. rewrite Hm. cbn [map last]. exact Hval. }
  destruct f; cbn [field NutritionData.calories NutritionData.protein
                   NutritionData.carbs NutritionData.fat NutritionData.tip];
    try exact E.
  cbn [labelOf] in *. unfold continuations, appendAll.
  cbn [afterFirstTip]. rewrite Hm. cbn [filter map concat].
  rewrite app_nil_r. exact E.
Qed.

Lemma labelled_line_any_case_witness :
  field Protein (parseNutritionResult (js "PROTEIN:" ++ js "   32 g  ")) = js "32 g".
Proof.
  rewrite (labelled_line_any_case Protein (js "PROTEIN:") (js "   32 g  ")).
  - vm_compute. reflexivity.
  - vm_compute. reflexivity.
  - intros c Hc. vm_compute in Hc.
    repeat (destruct Hc as [<-|Hc]; [discriminate|]). destruct Hc.
Defined.

(* ================================================================== *)
(** ** Extracted values and totals as binary64 magnitudes *)
(* ================================================================== *)

Lemma pow2_pos (n : N) : 0 < 2 ^ n.
Proof. apply N.neq_0_lt_0, N.pow_nonzero. discriminate. Qed.

Lemma size_lower (k : N) : k <> 0 -> 2 ^ (N.size k - 1) <= k.
Proof.
  intros H. rewrite N.size_log2 by exact H.
  replace (N.succ (N.log2 k) - 1) with (N.log2 k) by lia.
  apply N.log2_spec. lia.
Qed.

(** The leading part kept by the rounding has at most 53 bits. *)
Lemma leading_bits_bound (q0 : N) :
  q0 / 2 ^ (N.size q0 - precision) < 2 ^ precision.
Proof.
  apply N.Div0.div_lt_upper_bound. rewrite <- N.pow_add_r.
  apply N.lt_le_trans with (2 ^ N.size q0); [apply N.size_gt|].
  apply pow2_le_mono. lia.
Qed.

(** Rounding yields a binary64 magnitude or overflows. *)
Lemma roundTiesToEven_wellFormed (num den : N) :
  wellFormed (roundTiesToEven false num den).
Proof.
  unfold roundTiesToEven.
  set (shift := N.size (num / den) - precision).
  set (q := num / (den * 2 ^ shift)).
  assert (Hq : q < 2 ^ precision).
  { subst q. rewrite <- N.Div0.div_div. apply leading_bits_bound. }
  set (m := match 2 * (num mod (den * 2 ^ shift)) ?= den * 2 ^ shift with
            | Eq => if N.odd q then q + 1 else q
            | Lt => q
            | Gt => q + 1
            end).
  assert (Hm : m < 2 ^ precision \/ m = 2 ^ precision).
  { subst m. destruct (_ ?= _); [destruct (N.odd q)| |]; lia. }
  destruct (m * 2 ^ shift <? 2 ^ overflowExponent); [left | now right].
  eexists; split; [reflexivity|].
  destruct Hm as [Hm| ->].
  - now exists m, shift.
  - exists 1, (precision + shift). split; [|apply N.pow_gt_1; [lia | discriminate]].
    now rewrite N.pow_add_r, N.mul_1_l.
Qed.

Lemma wellFormed_nonNegative (x : number) : wellFormed x -> nonNegative x.
Proof. intros [(k & -> & _)| ->]; [left; now exists k | now right]. Qed.

Lemma wellFormed_zero : wellFormed zero.
Proof. left. exists 0. split; [reflexivity|]. exists 0, 0. split; [reflexivity | apply pow2_pos]. Qed.

(** The sum of two non-negative Numbers is a non-negative binary64 value. *)
Lemma add_wellFormed (x y : number) :
  nonNegative x -> nonNegative y -> wellFormed (add x y).
Proof.
  intros [[a ->]| ->] [[b ->]| ->]; try (now right).
  unfold add, signed.
  destruct (Z.eqb_spec (Z.of_N a + Z.of_N b) 0); [apply wellFormed_zero|].
  replace (Z.of_N a + Z.of_N b <? 0)%Z with false by (symmetry; apply Z.ltb_ge; lia).
  apply roundTiesToEven_wellFormed.
Qed.

(** Rounding a magnitude never goes below a binary64 magnitude under it. *)
Lemma roundTiesToEven_lower (a k : N) :
  representable a -> a <= k -> lessEq (Finite false a) (roundTiesToEven false k 1) = true.
Proof.
  intros (c & t & -> & Hc) Hak. unfold roundTiesToEven.
  rewrite N.div_1_r, N.mul_1_l.
  set (shift := N.size k - precision).
  set (q := k / 2 ^ shift).
  set (m := match 2 * (k mod 2 ^ shift) ?= 2 ^ shift with
            | Eq => if N.odd q then q + 1 else q
            | Lt => q
            | Gt => q + 1
            end).
  assert (Hm : q <= m).
  { subst m. destruct (_ ?= _); [destruct (N.odd q)| |]; lia. }
  destruct (m * 2 ^ shift <? 2 ^ overflowExponent); [|reflexivity].
  cbn [lessEq signed]. apply Z.leb_le. apply N2Z.inj_le.
  apply N.le_trans with (q * 2 ^ shift); [|apply N.mul_le_mono_r; exact Hm].
  pose proof (pow2_pos shift) as Hpos.
  destruct (N.le_gt_cases shift t) as [Hts|Hts].
  - replace (c * 2 ^ t) with (c * 2 ^ (t - shift) * 2 ^ shift) in *.
    2:{ rewrite <- N.mul_assoc, <- N.pow_add_r. do 2 f_equal. lia. }
    apply N.mul_le_mono_r. subst q.
    apply N.div_le_lower_bound; [lia|]. now rewrite N.mul_comm.
  - assert (Hk : k <> 0).
    { intros ->. subst shift. simpl in Hts. lia. }
    assert (Hsize : N.size k - 1 = 52 + shift) by (subst shift; unfold precision in *; lia).
    pose proof (size_lower k Hk) as Hlow. rewrite Hsize, N.pow_add_r in Hlow.
    assert (Hq : 2 ^ 52 <= q).
    { subst q. apply N.div_le_lower_bound; [lia|]. now rewrite N.mul_comm. }
    apply N.le_trans with (2 ^ 52 * 2 ^ shift); [|now apply N.mul_le_mono_r].
    rewrite <- N.pow_add_r.
    apply N.le_trans with (2 ^ precision * 2 ^ t).
    + apply N.mul_le_mono_r. lia.
    + rewrite <- N.pow_add_r. apply pow2_le_mono. unfold precision. lia.
Qed.

Lemma lessEq_refl (x : number) : nonNegative x -> lessEq x x = true.
Proof.
  intros [[k ->]| ->]; [|reflexivity]. simpl. apply Z.leb_le. lia.
Qed.

(** Adding a non-negative Number to a non-negative binary64 value never
    gives less. *)
Lemma add_increases (x y : number) :
  wellFormed x -> nonNegative y -> lessEq x (add x y) = true.
Proof.
  intros [(a & -> & Ha)| ->] [[b ->]| ->]; try reflexivity.
  unfold add, signed.
  destruct (Z.eqb_spec (Z.of_N a + Z.of_N b) 0) as [Hz|Hz].
  - assert (a = 0) as -> by lia. reflexivity.
  - replace (Z.of_N a + Z.of_N b <? 0)%Z with false by (symmetry; apply Z.ltb_ge; lia).
    apply roundTiesToEven_lower; [exact Ha | lia].
Qed.

Lemma numberOfToken_wellFormed (ip fp : jsstring) : wellFormed (numberOfToken ip fp).
Proof. apply roundTiesToEven_wellFormed. Qed.

Lemma extractNumericValue_wellFormed (str : jsstring) :
  wellFormed (extractNumericValue str).
Proof.
  destruct (FirstToken_exists str) as [H|(pre & ip & fp & post & H)].
  - rewrite extractNumericValue_noDigit by exact H. apply wellFormed_zero.
  - rewrite (extractNumericValue_FirstToken _ _ _ _ _ H).
    apply numberOfToken_wellFormed.
Qed.

(** Whatever the text, the extracted value is a non-negative binary64
    value or positive infinity: never [NaN] (it is [===] to itself), never
    negative, never the negative zero. *)
Theorem extractNumericValue_never_negative (str : jsstring) :
  wellFormed (extractNumericValue str) /\
  strictEquals (extractNumericValue str) (extractNumericValue str) = true.
Proof.
  split; [apply extractNumericValue_wellFormed|].
  destruct (extractNumericValue_shape str) as [[k ->]| ->]; simpl; [|reflexivity].
  now rewrite N.eqb_refl, orb_true_r.
Qed.

(** A prefix without digits does not change the extracted value. *)
Theorem extractNumericValue_skips_prefix (pre str : jsstring) :
  noDigit pre -> extractNumericValue (pre ++ str) = extractNumericValue str.
Proof.
  intros H. unfold extractNumericValue. f_equal.
  induction pre as [|c pre IH]; [reflexivity|]. simpl.
  rewrite (H c (or_introl eq_refl)). apply IH. intros x Hx; apply H; now right.
Qed.

Lemma extractNumericValue_skips_prefix_witness :
  extractNumericValue (js "approx. " ++ js "32g") = extractNumericValue (js "32g").
Proof.
  apply extractNumericValue_skips_prefix.
  intros c Hc. vm_compute in Hc.
  repeat (destruct Hc as [<-|Hc]; [reflexivity|]). destruct Hc.
Defined.

(* ================================================================== *)
(** ** The chart data and the meal log *)
(* ================================================================== *)

(** When [NutritionPieChart] draws the pie, its data set holds exactly the
    three extracted values, none of them [NaN] or negative, and at least
    one of them is not zero. *)
Theorem pie_data_well_formed (nd : NutritionData.t) (data : list number) :
  NutritionPieChart nd = Pie data ->
  data = [extractNumericValue (NutritionData.protein nd);
          extractNumericValue (NutritionData.carbs nd);
          extractNumericValue (NutritionData.fat nd)] /\
  Forall nonNegative data /\
  Exists (fun x => x <> zero) data.
Proof.
  unfold NutritionPieChart.
  set (p := extractNumericValue (NutritionData.protein nd)).
  set (c := extractNumericValue (NutritionData.carbs nd)).
  set (f := extractNumericValue (NutritionData.fat nd)).
  assert (HF : Forall nonNegative [p; c; f]).
  { repeat apply Forall_cons; try apply Forall_nil;
      apply wellFormed_nonNegative, extractNumericValue_wellFormed. }
  destruct (strictEquals p zero) eqn:Ep; cbn [andb];
    [destruct (strictEquals c zero) eqn:Ec; cbn [andb];
      [destruct (strictEquals f zero) eqn:Ef; [discriminate|]|]|];
    intros [= <-]; (split; [reflexivity|]); (split; [exact HF|]).
  - apply Exists_cons_tl, Exists_cons_tl, Exists_cons_hd.
    intros H. subst f. apply strictEquals_zero in H. congruence.
  - apply Exists_cons_tl, Exists_cons_hd.
    intros H. subst c. apply strictEquals_zero in H. congruence.
  - apply Exists_cons_hd.
    intros H. subst p. apply strictEquals_zero in H. congruence.
Qed.

Lemma pie_data_well_formed_witness :
  Exists (fun x => x <> zero) [zero; integer 65; zero].
Proof.
  apply (pie_data_well_formed
           (NutritionData.mk (js "720 kcal") (js "n/a") (js "65g") (js "-") (js ""))
           [zero; integer 65; zero]).
  vm_compute. reflexivity.
Defined.

Lemma saveMealFromAnalysis_wellFormed now result (ms : list MealEntry.t) :
  Forall wellFormedMeal ms ->
  Forall wellFormedMeal (saveMealFromAnalysis now result ms).
Proof.
  intros H. destruct result as [[|c r]|]; try exact H.
  unfold saveMealFromAnalysis. apply Forall_app. split; [exact H|].
  constructor; [|constructor].
  repeat split; apply extractNumericValue_wellFormed.
Qed.

Lemma savedLog_snoc saves now result :
  savedLog (saves ++ [(now, result)])
  = saveMealFromAnalysis now result (savedLog saves).
Proof. unfold savedLog. now rewrite fold_left_app. Qed.

Lemma savedLog_wellFormed saves : Forall wellFormedMeal (savedLog saves).
Proof.
  induction saves as [|[now result] saves IH] using rev_ind; [constructor|].
  rewrite savedLog_snoc. now apply saveMealFromAnalysis_wellFormed.
Qed.

Lemma reduce_snoc {A} (f : A -> number) (ms : list A) (m : A) :
  reduce (fun sum meal => add sum (f meal)) (ms ++ [m]) zero
  = add (reduce (fun sum meal => add sum (f meal)) ms zero) (f m).
Proof. unfold reduce. now rewrite fold_left_app. Qed.

Lemma reduce_wellFormed {A} (f : A -> number) (ms : list A) :
  (forall m, In m ms -> wellFormed (f m)) ->
  wellFormed (reduce (fun sum meal => add sum (f meal)) ms zero).
Proof.
  induction ms as [|m ms IH] using rev_ind; intros H; [apply wellFormed_zero|].
  rewrite reduce_snoc. apply add_wellFormed; apply wellFormed_nonNegative.
  - apply IH. intros x Hx. apply H, in_or_app. now left.
  - apply H, in_or_app. right. now left.
Qed.

(** Whatever was saved, none of the four daily totals is ever [NaN] or
    negative. *)
Theorem saved_totals_never_NaN (saves : list (N * option jsstring)) :
  let totals := dailyTotals (savedLog saves) in
  nonNegative (totalCalories totals) /\ nonNegative (totalProtein totals) /\
  nonNegative (totalCarbs totals) /\ nonNegative (totalFat totals).
Proof.
  pose proof (savedLog_wellFormed saves) as H. rewrite Forall_forall in H.
  cbn [dailyTotals totalCalories totalProtein totalCarbs totalFat].
  repeat split; apply wellFormed_nonNegative, reduce_wellFormed;
    intros m Hm; apply (H m Hm).
Qed.

(** A click on "Save to Today" never lowers a daily total. *)
Theorem saving_never_lowers_totals (saves : list (N * option jsstring))
    (now : N) (result : option jsstring) :
  let before := dailyTotals (savedLog saves) in
  let after := dailyTotals (savedLog (saves ++ [(now, result)])) in
  lessEq (totalCalories before) (totalCalories after) = true /\
  lessEq (totalProtein before) (totalProtein after) = true /\
  lessEq (totalCarbs before) (totalCarbs after) = true /\
  lessEq (totalFat before) (totalFat after) = true.
Proof.
  pose proof (savedLog_wellFormed saves) as H. rewrite Forall_forall in H.
  rewrite savedLog_snoc.
  cbn [dailyTotals totalCalories totalProtein totalCarbs totalFat].
  assert (W : forall f : MealEntry.t -> number,
             (forall m, In m (savedLog saves) -> wellFormed (f m)) ->
             wellFormed (reduce (fun sum meal => add sum (f meal)) (savedLog saves) zero))
    by (intros f; apply reduce_wellFormed).
  destruct result as [[|c r]|];
    try (repeat split; apply lessEq_refl, wellFormed_nonNegative, W;
         intros m Hm; apply (H m Hm)).
  unfold saveMealFromAnalysis. rewrite !reduce_snoc.
  cbn [MealEntry.calories MealEntry.protein MealEntry.carbs MealEntry.fat].
  repeat split; (apply add_increases;
    [apply W; intros m Hm; apply (H m Hm)
    |apply wellFormed_nonNegative, extractNumericValue_wellFormed]).
Qed.

(** Saving without an analysis text changes nothing; saving with one keeps
    the meals saved so far, adds one meal behind them, and adds the four
    values extracted from the parsed text to the four daily totals. *)
Theorem saving_adds_extracted_values (now : N) (ms : list MealEntry.t) :
  saveMealFromAnalysis now None ms = ms /\
  saveMealFromAnalysis now (Some []) ms = ms /\
  forall (c : codeunit) (r : jsstring),
    let nd := parseNutritionResult (c :: r) in
    let ms' := saveMealFromAnalysis now (Some (c :: r)) ms in
    firstn (List.length ms) ms' = ms /\
    List.length ms' = S (List.length ms) /\
    dailyTotals ms'
    = mkDailyTotals
        (add (totalCalories (dailyTotals ms)) (extractNumericValue (NutritionData.calories nd)))
        (add (totalProtein (dailyTotals ms)) (extractNumericValue (NutritionData.protein nd)))
        (add (totalCarbs (dailyTotals ms)) (extractNumericValue (NutritionData.carbs nd)))
        (add (totalFat (dailyTotals ms)) (extractNumericValue (NutritionData.fat nd))).
Proof.
  split; [reflexivity|]. split; [reflexivity|].
  intros c r nd ms'. subst ms'. unfold saveMealFromAnalysis. fold nd.
  split; [|split].
  - rewrite firstn_app, firstn_all, Nat.sub_diag. simpl. apply app_nil_r.
  - rewrite length_app. simpl. lia.
  - unfold dailyTotals. now rewrite !reduce_snoc.
Qed.

(* ================================================================== *)
(** ** A failed upload *)
(* ================================================================== *)

Lemma errorResult_unmatched (message : jsstring) (f : Field) :
  matchesLabel (labelOf f) (errorResult message) = false.
Proof.
  unfold matchesLabel.
  destruct (trim_head_kept 9888 (65039 :: js " Error: " ++ message) eq_refl)
    as [r' E].
  replace (trim (errorResult message)) with (9888 :: r') by (symmetry; exact E).
  destruct f; reflexivity.
Qed.

Lemma parse_errorResult (message : jsstring) :
  singleLine message ->
  parseNutritionResult (errorResult message) = NutritionData.mk [] [] [] [] [].
Proof.
  intros Hs.
  assert (Hsplit : split LF (errorResult message) = [errorResult message]).
  { apply split_singleLine. unfold errorResult.
    intros c [Hc|[Hc|Hc]%in_app_or]%in_app_or.
    - vm_compute in Hc. repeat (destruct Hc as [<-|Hc]; [discriminate|]). destruct Hc.
    - vm_compute in Hc. repeat (destruct Hc as [<-|Hc]; [discriminate|]). destruct Hc.
    - now apply Hs. }
  assert (H : forall f, field f (parseNutritionResult (errorResult message)) = []).
  { intros f. apply field_unmatched. rewrite Hsplit.
    intros line [<-|[]]. apply errorResult_unmatched. }
  pose proof (H Calories) as H1. pose proof (H Protein) as H2.
  pose proof (H Carbs) as H3. pose proof (H Fat) as H4. pose proof (H Tip) as H5.
  destruct (parseNutritionResult (errorResult message)); simpl in *. now subst.
Qed.

Lemma nutritionDataOf_text (text : jsstring) :
  text <> [] -> nutritionDataOf (Some text) = Some (parseNutritionResult text).
Proof. now destruct text. Qed.

Lemma saveMealFromAnalysis_text now (text : jsstring) (ms : list MealEntry.t) :
  text <> [] ->
  saveMealFromAnalysis now (Some text) ms
  = ms ++ [MealEntry.mk (integer now) (js "AI Analyzed Meal")
             (extractNumericValue (NutritionData.calories (parseNutritionResult text)))
             (extractNumericValue (NutritionData.protein (parseNutritionResult text)))
             (extractNumericValue (NutritionData.carbs (parseNutritionResult text)))
             (extractNumericValue (NutritionData.fat (parseNutritionResult text)))
             now].
Proof. now destruct text. Qed.

(** When the upload fails with a one-line message, the page still shows the
    analysis panel, with five empty fields and the "no data" chart fallback,
    and "Save to Today" then logs a meal of four zeros. *)
Theorem failed_upload_saves_empty_meal (o : FetchOutcome) (message : jsstring) :
  failureMessage o = Some message -> singleLine message ->
  uploadResult o = Some (errorResult message) /\
  nutritionDataOf (uploadResult o) = Some (NutritionData.mk [] [] [] [] []) /\
  NutritionPieChart (NutritionData.mk [] [] [] [] []) = NoMacroData /\
  forall now ms,
    saveMealFromAnalysis now (uploadResult o) ms
    = ms ++ [MealEntry.mk (integer now) (js "AI Analyzed Meal")
               zero zero zero zero now].
Proof.
  intros Hf Hs.
  assert (Hr : uploadResult o = Some (errorResult message))
    by (unfold uploadResult; now rewrite Hf).
  pose proof (parse_errorResult message Hs) as Hp.
  assert (Hne : errorResult message <> []) by discriminate.
  rewrite Hr.
  split; [reflexivity|]. split; [|split; [reflexivity|]].
  - now rewrite nutritionDataOf_text, Hp.
  - intros now ms. now rewrite saveMealFromAnalysis_text, Hp.
Qed.

Lemma failed_upload_saves_empty_meal_witness :
  saveMealFromAnalysis 7 (uploadResult (Answered false None None)) []
  = [MealEntry.mk (integer 7) (js "AI Analyzed Meal") zero zero zero zero 7].
Proof.
  apply (failed_upload_saves_empty_meal (Answered false None None)
           (js "Unknown error")).
  - reflexivity.
  - intros c Hc. vm_compute in Hc.
    repeat (destruct Hc as [<-|Hc]; [discriminate|]). destruct Hc.
Defined.

(* ================================================================== *)
(** ** A response in the layout the prompt asks for *)
(* ================================================================== *)

Lemma trim_space_cons (s : jsstring) : trim (SP :: s) = trim s.
Proof. reflexivity. Qed.

Lemma js_singleLine_app (a v b : jsstring) :
  singleLine a -> singleLine v -> singleLine b -> singleLine (a ++ v ++ b).
Proof.
  intros Ha Hv Hb c [Hc|[Hc|Hc]%in_app_or]%in_app_or; auto.
Qed.

Ltac closed_singleLine :=
  let c := fresh "c" in let Hc := fresh "Hc" in
  intros c Hc; vm_compute in Hc;
  repeat (destruct Hc as [<-|Hc]; [discriminate|]); destruct Hc.

(** A line made of a label in some letter case and a value matches that
    label alone and gives the trimmed value. *)
Lemma headed_line (f : Field) (h v : jsstring) :
  caseVariant (labelOf f) h ->
  matchesLabel (labelOf f) (h ++ v) = true /\
  labelValue (labelOf f) (h ++ v) = trim v /\
  forall g, g <> f -> matchesLabel (labelOf g) (h ++ v) = false.
Proof.
  intros Hv. destruct (label_facts f) as [Hne Hl].
  destruct (labelled_line (labelOf f) h v Hne Hl Hv) as [Hm Hval].
  repeat split; try assumption.
  intros g Hg. apply (matchesLabel_exclusive f g); [congruence | exact Hm].
Qed.

Lemma formattedResponse_lines (c p b f t : jsstring) :
  singleLine c -> singleLine p -> singleLine b -> singleLine f -> singleLine t ->
  split LF (formattedResponse c p b f t)
  = [js "Calories: " ++ c ++ js " kcal"; js "Protein: " ++ p ++ js "g";
     js "Carbs: " ++ b ++ js "g"; js "Fat: " ++ f ++ js "g"; [];
     js "Tip: " ++ t].
Proof.
  intros Hc Hp Hb Hf Ht.
  assert (E : formattedResponse c p b f t
              = (js "Calories: " ++ c ++ js " kcal") ++ LF ::
                (js "Protein: " ++ p ++ js "g") ++ LF ::
                (js "Carbs: " ++ b ++ js "g") ++ LF ::
                (js "Fat: " ++ f ++ js "g") ++ LF :: [] ++ LF :: js "Tip: " ++ t).
  { unfold formattedResponse. rewrite <- !app_assoc. reflexivity. }
  rewrite E, !split_app.
  rewrite !split_singleLine; [reflexivity|..];
    try (apply js_singleLine_app; try assumption; closed_singleLine).
  - intros x [Hx|Hx]%in_app_or; [revert x Hx; closed_singleLine | now apply Ht].
  - easy.
Qed.

Ltac other_label X g :=
  let H := fresh in
  assert (H := X g ltac:(discriminate)); cbn [labelOf] in H;
  rewrite ?H; clear H.

Lemma parse_formattedResponse (c p b f t : jsstring) :
  singleLine c -> singleLine p -> singleLine b -> singleLine f -> singleLine t ->
  parseNutritionResult (formattedResponse c p b f t)
  = NutritionData.mk (trim (c ++ js " kcal")) (trim (p ++ js "g"))
      (trim (b ++ js "g")) (trim (f ++ js "g")) (trim t).
Proof.
  intros Hc Hp Hb Hf Ht.
  rewrite parseNutritionResult_closed_form, formattedResponse_lines by assumption.
  set (l1 := js "Calories: " ++ c ++ js " kcal").
  set (l2 := js "Protein: " ++ p ++ js "g").
  set (l3 := js "Carbs: " ++ b ++ js "g").
  set (l4 := js "Fat: " ++ f ++ js "g").
  set (l5 := js "Tip: " ++ t).
  assert (F1 : matchesLabel (labelOf Calories) l1 = true /\
               labelValue (labelOf Calories) l1 = trim (c ++ js " kcal") /\
               forall g, g <> Calories -> matchesLabel (labelOf g) l1 = false)
    by exact (headed_line Calories (js "Calories:") (SP :: c ++ js " kcal") eq_refl).
  assert (F2 : matchesLabel (labelOf Protein) l2 = true /\
               labelValue (labelOf Protein) l2 = trim (p ++ js "g") /\
               forall g, g <> Protein -> matchesLabel (labelOf g) l2 = false)
    by exact (headed_line Protein (js "Protein:") (SP :: p ++ js "g") eq_refl).
  assert (F3 : matchesLabel (labelOf Carbs) l3 = true /\
               labelValue (labelOf Carbs) l3 = trim (b ++ js "g") /\
               forall g, g <> Carbs -> matchesLabel (labelOf g) l3 = false)
    by exact (headed_line Carbs (js "Carbs:") (SP :: b ++ js "g") eq_refl).
  assert (F4 : matchesLabel (labelOf Fat) l4 = true /\
               labelValue (labelOf Fat) l4 = trim (f ++ js "g") /\
               forall g, g <> Fat -> matchesLabel (labelOf g) l4 = false)
    by exact (headed_line Fat (js "Fat:") (SP :: f ++ js "g") eq_refl).
  assert (F5 : matchesLabel (labelOf Tip) l5 = true /\
               labelValue (labelOf Tip) l5 = trim t /\
               forall g, g <> Tip -> matchesLabel (labelOf g) l5 = false)
    by exact (headed_line Tip (js "Tip:") (SP :: t) eq_refl).
  clearbody l1 l2 l3 l4 l5.
  destruct F1 as (M1 & V1 & X1), F2 as (M2 & V2 & X2), F3 as (M3 & V3 & X3),
           F4 as (M4 & V4 & X4), F5 as (M5 & V5 & X5).
  unfold lastValue, continuations, appendAll.
  cbn [filter afterFirstTip]. cbn [labelOf] in *.
  rewrite M1, M2, M3, M4, M5.
  other_label X1 Protein; other_label X1 Carbs; other_label X1 Fat; other_label X1 Tip.
  other_label X2 Calories; other_label X2 Carbs; other_label X2 Fat; other_label X2 Tip.
  other_label X3 Calories; other_label X3 Protein; other_label X3 Fat; other_label X3 Tip.
  other_label X4 Calories; other_label X4 Protein; other_label X4 Carbs; other_label X4 Tip.
  other_label X5 Calories; other_label X5 Protein; other_label X5 Carbs; other_label X5 Fat.
  change (matchesLabel caloriesLabel []) with false.
  change (matchesLabel proteinLabel []) with false.
  change (matchesLabel carbsLabel []) with false.
  change (matchesLabel fatLabel []) with false.
  change (matchesLabel tipLabel []) with false.
  cbn [filter map last concat]. rewrite V1, V2, V3, V4, V5.
  now rewrite app_nil_r.
Qed.

(** A response in the layout the prompt asks for parses back to its five
    values, each trimmed, the unit kept with its number. *)
Theorem formatted_response_round_trip (c p b f t : jsstring) :
  singleLine c -> singleLine p -> singleLine b -> singleLine f -> singleLine t ->
  parseNutritionResult (formattedResponse c p b f t)
  = NutritionData.mk (trim (c ++ js " kcal")) (trim (p ++ js "g"))
      (trim (b ++ js "g")) (trim (f ++ js "g")) (trim t).
Proof.
  intros Hc Hp Hb Hf Ht. now apply parse_formattedResponse.
Qed.

Lemma formatted_response_round_trip_witness :
  parseNutritionResult
    (unlines ["Calories:  ~720 kcal"; "Protein: 32g"; "Carbs: 65 g"; "Fat: 28g";
              ""; "Tip: Add veggies. "]%string)
  = NutritionData.mk (js "~720 kcal") (js "32g") (js "65 g") (js "28g")
      (js "Add veggies.").
Proof.
  change (unlines ["Calories:  ~720 kcal"; "Protein: 32g"; "Carbs: 65 g"; "Fat: 28g";
                   ""; "Tip: Add veggies. "]%string)
    with (formattedResponse (js " ~720") (js "32") (js "65 ") (js "28")
            (js "Add veggies. ")).
  rewrite formatted_response_round_trip; [vm_compute; reflexivity|..];
    closed_singleLine.
Defined.

Lemma last_app_nonempty {A} (l u : list A) (d : A) : u <> [] -> last (l ++ u) d = last u d.
Proof.
  intros Hu. induction l as [|x l IH]; [reflexivity|].
  simpl. destruct (l ++ u) eqn:E; [|exact IH].
  apply app_eq_nil in E as [_ ->]. easy.
Qed.

Lemma trim_digits_unit (ds u : jsstring) :
  allDigits ds -> ds <> [] -> u <> [] -> isSpace (last u 0) = false ->
  trim (ds ++ u) = ds ++ u.
Proof.
  intros Hds Hne Hu Hlast. destruct ds as [|d ds]; [easy|].
  unfold trim, trimStart. cbn [app].
  rewrite dropWhile_stop by (apply digit_not_space, Hds; now left).
  change (d :: ds ++ u) with ((d :: ds) ++ u).
  rewrite <- (app_nil_r ((d :: ds) ++ u)) at 1.
  rewrite trimEnd_app_head; [apply app_nil_r | now destruct ds|].
  now rewrite last_app_nonempty.
Qed.

(** The value of a whole number followed by a unit. *)
Lemma extract_whole_number (ds u : jsstring) :
  wholeNumber ds -> u <> [] -> isSpace (last u 0) = false ->
  headIsDigit u = false -> (forall r, u = DOT :: r -> headIsDigit r = false) ->
  extractNumericValue (trim (ds ++ u)) = integer (decimalValue ds).
Proof.
  intros (Hds & Hne & Hb) Hu Hlast Hhead Hdot.
  rewrite trim_digits_unit by assumption.
  rewrite (extractNumericValue_FirstToken (ds ++ u) [] ds [] u).
  - now apply numberOfToken_integer.
  - repeat split; try assumption; easy.
Qed.

Lemma allDigits_singleLine (ds : jsstring) : allDigits ds -> singleLine ds.
Proof. intros H c Hc ->. specialize (H LF Hc). discriminate. Qed.

(** A response in the layout the prompt asks for, with whole numbers below
    2^53 as its four values, is saved as a meal holding exactly these four
    numbers. *)
Theorem formatted_response_saved_meal (c p b f t : jsstring) (now : N)
    (ms : list MealEntry.t) :
  wholeNumber c -> wholeNumber p -> wholeNumber b -> wholeNumber f ->
  singleLine t ->
  saveMealFromAnalysis now (Some (formattedResponse c p b f t)) ms
  = ms ++ [MealEntry.mk (integer now) (js "AI Analyzed Meal")
             (integer (decimalValue c)) (integer (decimalValue p))
             (integer (decimalValue b)) (integer (decimalValue f)) now].
Proof.
  intros Hc Hp Hb Hf Ht.
  rewrite saveMealFromAnalysis_text by discriminate.
  rewrite parse_formattedResponse;
    [|apply allDigits_singleLine, Hc|apply allDigits_singleLine, Hp
     |apply allDigits_singleLine, Hb|apply allDigits_singleLine, Hf|exact Ht].
  cbn [NutritionData.calories NutritionData.protein NutritionData.carbs
       NutritionData.fat].
  rewrite !extract_whole_number; try assumption; try reflexivity;
    try discriminate; intros r [= <-]; reflexivity.
Qed.

Lemma formatted_response_saved_meal_witness :
  saveMealFromAnalysis 9 (Some (formattedResponse (js "720") (js "32") (js "65")
                                  (js "28") (js "Add veggies."))) []
  = [MealEntry.mk (integer 9) (js "AI Analyzed Meal")
       (integer 720) (integer 32) (integer 65) (integer 28) 9].
Proof.
  assert (W : forall s, forallb isDigit (js s) = true ->
                        (decimalValue (js s) <? safeBound) = true ->
                        js s <> [] -> wholeNumber (js s)).
  { intros s H1 H2 H3. repeat split; [|exact H3|now apply N.ltb_lt].
    intros x Hx. rewrite forallb_forall in H1. now apply H1. }
  rewrite (formatted_response_saved_meal (js "720") (js "32") (js "65") (js "28")
             (js "Add veggies.") 9 []).
  - vm_compute. reflexivity.
  - apply W; [reflexivity | vm_compute; reflexivity | discriminate].
  - apply W; [reflexivity | vm_compute; reflexivity | discriminate].
  - apply W; [reflexivity | vm_compute; reflexivity | discriminate].
  - apply W; [reflexivity | vm_compute; reflexivity | discriminate].
  - closed_singleLine.
Defined.

(* ================================================================== *)
(** ** Letter case of the labels *)
(* ================================================================== *)




(* ================================================================== *)
(** ** When the extracted value is finite *)
(* ================================================================== *)

Lemma decimalValue_fold_bound (ds : jsstring) (acc : N) :
  allDigits ds ->
  fold_left (fun a c => 10 * a + (c - 48)) ds acc
  < (acc + 1) * 10 ^ N.of_nat (List.length ds).
Proof.
  revert acc. induction ds as [|d ds IH]; intros acc H.
  - simpl. rewrite N.pow_0_r. lia.
  - cbn [fold_left List.length]. rewrite Nat2N.inj_succ, N.pow_succ_r'.
    eapply N.lt_le_trans; [apply IH; intros c Hc; apply H; now right|].
    pose proof (isDigit_range d (H d (or_introl eq_refl))) as Hd.
    rewrite N.mul_assoc. apply N.mul_le_mono_r. lia.
Qed.

Lemma decimalValue_bound (ds : jsstring) :
  allDigits ds -> decimalValue ds < 10 ^ N.of_nat (List.length ds).
Proof.
  intros H. pose proof (decimalValue_fold_bound ds 0 H) as B.
  unfold decimalValue. now rewrite N.mul_1_l in B.
Qed.

(** Rounding stays finite when the quotient is far enough below 2^1024. *)
Lemma roundTiesToEven_finite (num den B : N) :
  num / den < B -> B * (2 ^ 52 + 1) <= 2 ^ overflowExponent * 2 ^ 52 ->
  exists k, roundTiesToEven false num den = Finite false k.
Proof.
  intros Hq HB. unfold roundTiesToEven.
  set (q0 := num / den) in *.
  set (shift := N.size q0 - precision).
  set (q := num / (den * 2 ^ shift)).
  assert (Eq : q = q0 / 2 ^ shift) by (subst q q0; now rewrite N.Div0.div_div).
  set (m := match 2 * (num mod (den * 2 ^ shift)) ?= den * 2 ^ shift with
            | Eq => if N.odd q then q + 1 else q
            | Lt => q
            | Gt => q + 1
            end).
  assert (Hm : m <= q + 1).
  { subst m. destruct (_ ?= _); [destruct (N.odd q)| |]; lia. }
  assert (Hlow : q * 2 ^ shift <= q0).
  { rewrite Eq, N.mul_comm. apply N.Div0.mul_div_le. }
  assert (Hs : 2 ^ shift * 2 ^ 52 <= q0 + 2 ^ 52).
  { destruct (N.eq_dec shift 0) as [->|Hs0]; [rewrite N.pow_0_r; lia|].
    assert (Hk : q0 <> 0) by (intros E; subst shift; rewrite E in Hs0; now simpl in Hs0).
    pose proof (size_lower q0 Hk) as Hl.
    replace (N.size q0 - 1) with (shift + 52) in Hl
      by (subst shift; unfold precision in *; lia).
    rewrite N.pow_add_r in Hl. lia. }
  assert (Hk : m * 2 ^ shift * 2 ^ 52 < 2 ^ overflowExponent * 2 ^ 52).
  { eapply N.lt_le_trans; [|exact HB].
    apply N.le_lt_trans with ((q + 1) * 2 ^ shift * 2 ^ 52).
    - do 2 apply N.mul_le_mono_r. exact Hm.
    - set (P := 2 ^ shift) in *. set (T := 2 ^ 52) in *.
      clearbody P T q m q0. nia. }
  apply N.mul_lt_mono_pos_r in Hk; [|apply pow2_pos].
  apply N.ltb_lt in Hk. rewrite Hk. eauto.
Qed.

(** A token whose integer part has at most 308 digits gives a finite value;
    a one followed by 309 zeros gives positive infinity. *)
Theorem extractNumericValue_finite :
  (forall str pre ip fp post,
     FirstToken str pre ip fp post -> (List.length ip <= 308)%nat ->
     exists k, extractNumericValue str = Finite false k) /\
  extractNumericValue (49 :: repeat 48 309 ++ js " kcal") = Infinity false.
Proof.
  split; [|vm_compute; reflexivity].
  intros str pre ip fp post H Hlen.
  rewrite (extractNumericValue_FirstToken _ _ _ _ _ H).
  destruct H as (_ & Hip & _ & Hfp & _).
  unfold numberOfToken.
  apply roundTiesToEven_finite with (B := 10 ^ 308 * 2 ^ unitExponent);
    [|vm_compute; discriminate].
  apply N.Div0.div_lt_upper_bound.
  assert (Hall : allDigits (ip ++ fp)).
  { intros c [Hc|Hc]%in_app_or; auto. }
  pose proof (decimalValue_bound _ Hall) as Hd.
  rewrite length_app, Nat2N.inj_add, N.pow_add_r in Hd.
  assert (Hip308 : 10 ^ N.of_nat (List.length ip) <= 10 ^ 308).
  { apply N.pow_le_mono_r; [discriminate | lia]. }
  pose proof (pow2_pos unitExponent) as HU.
  set (U := 2 ^ unitExponent) in *. set (F := 10 ^ N.of_nat (List.length fp)) in *.
  set (I := 10 ^ N.of_nat (List.length ip)) in *. set (M := 10 ^ 308) in *.
  set (D := decimalValue (ip ++ fp)) in *.
  clearbody U F I M D.
  apply N.lt_le_trans with (I * F * U); [now apply N.mul_lt_mono_pos_r|].
  rewrite (N.mul_comm I F), <- !N.mul_assoc. apply N.mul_le_mono_l.
  now apply N.mul_le_mono_r.
Qed.

Lemma extractNumericValue_finite_witness :
  exists k, extractNumericValue (js "~720 kcal") = Finite false k.
Proof.
  apply (proj1 extractNumericValue_finite _ (js "~") (js "720") [] (js " kcal")).
  - split; [|split; [|split; [discriminate|split; [easy|split; [reflexivity|]]]]].
    + intros c Hc. vm_compute in Hc. destruct Hc as [<-|[]]. reflexivity.
    + intros c Hc. vm_compute in Hc.
      repeat (destruct Hc as [<-|Hc]; [reflexivity|]). destruct Hc.
    + split; [reflexivity|]. intros r Hr. discriminate Hr.
  - simpl. lia.
Defined.
